(** * InteractiveVideoPlayer: the segment / choice state machine

    A shallow embedding of [InteractiveVideoPlayer] (the React component of
    [interactiveVideo]) and of the example configuration of [App.jsx].

    Conventions of the embedding:
    - a JS number that is a time in seconds is the rational [Q] that the
      double is; an optional field (or a value that may be [undefined] /
      [NaN]) is an [option];
    - the JS object [loopCountBySeg] is a [gmap string JsValue] of its own
      properties; reading it also sees the members that every object
      inherits from [Object.prototype];
    - the one sum whose rounding decides a comparison, [end + 0.05] of the
      chained watch, is rounded to a double ([double]);
    - a React state variable is a field of [State]; an effect or a handler
      reads the state variables of the render it was created in (its
      snapshot [r]) and writes to the state being built ([s]); the ref
      [videoRef] is mutable and is always read from [s];
    - the calls of the analytics hook [onEvent] are recorded, oldest first,
      in the field [events];
    - an exception thrown by the code is the result [Throw]. *)

From Stdlib Require Import QArith Qminmax Qround Qabs Lqa Lia ZArith List Bool Ascii.
From stdpp Require Import gmap strings list fin_maps.
Import ListNotations.

Open Scope string_scope.
Open Scope list_scope.

(** ** Results of code that may throw *)

Inductive result (A : Type) : Type :=
| Ok (a : A)
| Throw (name : string).
Arguments Ok {A} a.
Arguments Throw {A} name.

Definition bind {A B : Type} (m : result A) (k : A -> result B) : result B :=
  match m with
  | Ok a => k a
  | Throw e => Throw e
  end.

Notation "'do' x <- m ; k" := (bind m (fun x => k))
  (at level 10, x name, m at level 100, k at level 200).

(** ** Configuration shapes *)

(** [Action]: [{ type, to?, start?, end?, sourceId?, startAt? }]. *)
Record Action : Type := mkAction {
  act_type : string;
  act_to : option Q;
  act_start : option Q;
  act_end : option Q;
  act_sourceId : option string;
  act_startAt : option Q
}.

(** [Hotspot]: [{ id, label?, visible?, action, onEnd? }]; [rect] only
    positions the button and is left out. *)
Record Hotspot : Type := mkHotspot {
  hs_id : string;
  hs_label : option string;
  hs_visible : option bool;
  hs_action : option Action;
  hs_onEnd : option Q
}.

(** [Segment]; the optional booleans are read for their truthiness only,
    so an absent one is [false]. *)
Record Segment : Type := mkSegment {
  seg_id : string;
  seg_start : Q;
  seg_end : Q;
  seg_requireChoice : bool;
  seg_loopOnNoChoice : bool;
  seg_maxLoops : option Z;
  seg_defaultAction : option Action;
  seg_hotspots : list Hotspot
}.

Record Source : Type := mkSource {
  src_id : string;
  src_src : string
}.

Record Config : Type := mkConfig { segments : list Segment }.

(** The props of the component that the state machine reads. *)
Record Props : Type := mkProps {
  sources : list Source;
  initialSourceId : string;
  config : Config
}.

(** ** The values of a loop counter *)

(** The names of the members of [Object.prototype], which every object
    literal inherits. *)
Definition objectPrototypeMembers : list string :=
  [ "constructor"; "__defineGetter__"; "__defineSetter__"; "hasOwnProperty";
    "__lookupGetter__"; "__lookupSetter__"; "isPrototypeOf";
    "propertyIsEnumerable"; "toString"; "valueOf"; "__proto__";
    "toLocaleString" ].

Definition isPrototypeMember (id : string) : bool :=
  existsb (String.eqb id) objectPrototypeMembers.

(** What [loopCountBySeg[id] || 0] and [loops] can be: a number; the
    member of [Object.prototype] of that name (a function, or the
    prototype itself for [__proto__]); or the string that [+ 1] makes of
    such a member: its text followed by [ones] characters ['1']. *)
Inductive JsValue : Type :=
| Num (n : Z)
| Inherited (member : string)
| Str (member : string) (ones : nat).

(** [x + 1]: addition on a number, concatenation otherwise. *)
Definition plusOne (x : JsValue) : JsValue :=
  match x with
  | Num n => Num (n + 1)
  | Inherited member => Str member 1
  | Str member ones => Str member (S ones)
  end.

(** The payloads given to [onEvent]. *)
Inductive Event : Type :=
| SegmentEnter (segmentId : string)
| SegmentLoop (segmentId : string) (loops : JsValue)
| SegmentAutoselect (segmentId : string)
| SourceSwitch (sourceId : string) (startAt : Q)
| HotspotClick (hotspotId : string) (segmentId : option string).

Definition evt_type (e : Event) : string :=
  match e with
  | SegmentEnter _ => "segment.enter"
  | SegmentLoop _ _ => "segment.loop"
  | SegmentAutoselect _ => "segment.autoselect"
  | SourceSwitch _ _ => "source.switch"
  | HotspotClick _ _ => "hotspot.click"
  end.

(** ** The media element behind [videoRef] *)

(** [v_duration = None] is the [NaN] of an element without metadata;
    [v_playRejects] says whether the promise of [play()] rejects (autoplay
    restrictions). *)
Record Video : Type := mkVideo {
  v_currentTime : Q;
  v_duration : option Q;
  v_paused : bool;
  v_playRejects : bool
}.

(** [v.play().catch(() => {})] *)
Definition play (v : Video) : Video :=
  if v_playRejects v then v
  else mkVideo (v_currentTime v) (v_duration v) false (v_playRejects v).

Definition set_v_currentTime (t : Q) (v : Video) : Video :=
  mkVideo t (v_duration v) (v_paused v) (v_playRejects v).

(** ** [clamp] *)

Definition clamp (v min max : Q) : Q := Qmax min (Qmin max v).

(** Truthiness of a number that may be [NaN] ([None]): [0] and [NaN] are
    falsy. *)
Definition truthyQ (x : option Q) : option Q :=
  match x with
  | Some q => if Qeq_bool q 0 then None else Some q
  | None => None
  end.

(** Truthiness of a string that may be [null]: [null] and the empty string
    are falsy. *)
Definition truthyS (x : option string) : option string :=
  match x with
  | Some s => if String.eqb s "" then None else Some s
  | None => None
  end.

(** ** The segment resolver ([activeSegment]) *)

Definition inSegment (currentTime : Q) (seg : Segment) : bool :=
  Qle_bool (seg_start seg) currentTime && Qle_bool currentTime (seg_end seg).

Definition activeSegment (cfg : Config) (currentTime : Q) : option Segment :=
  List.find (inSegment currentTime) (segments cfg).

(** [sources.find((s) => s.id === currentSourceId) || sources[0]] *)
Definition currentSource (p : Props) (currentSourceId : string) : option Source :=
  match List.find (fun s => String.eqb (src_id s) currentSourceId) (sources p) with
  | Some s => Some s
  | None => List.hd_error (sources p)
  end.

(** ** Session state *)

Record State : Type := mkState {
  videoRef : option Video;
  currentSourceId : string;
  ready : bool;
  currentTime : Q;
  activeSegmentId : option string;
  activeHotspot : option Hotspot;
  loopCountBySeg : gmap string JsValue;
  userChoseInSegment : bool;
  showOverlays : bool;
  timers : list Q;
  events : list Event
}.

(** The field [timers] holds the [startAt] of every callback that
    [switchSource] handed to [setTimeout] and that has not run yet. *)

Definition set_videoRef (x : option Video) (s : State) : State :=
  mkState x (currentSourceId s) (ready s) (currentTime s) (activeSegmentId s)
    (activeHotspot s) (loopCountBySeg s) (userChoseInSegment s) (showOverlays s)
    (timers s) (events s).

Definition setCurrentSourceId (x : string) (s : State) : State :=
  mkState (videoRef s) x (ready s) (currentTime s) (activeSegmentId s)
    (activeHotspot s) (loopCountBySeg s) (userChoseInSegment s) (showOverlays s)
    (timers s) (events s).

Definition setReady (x : bool) (s : State) : State :=
  mkState (videoRef s) (currentSourceId s) x (currentTime s) (activeSegmentId s)
    (activeHotspot s) (loopCountBySeg s) (userChoseInSegment s) (showOverlays s)
    (timers s) (events s).

Definition setCurrentTime (x : Q) (s : State) : State :=
  mkState (videoRef s) (currentSourceId s) (ready s) x (activeSegmentId s)
    (activeHotspot s) (loopCountBySeg s) (userChoseInSegment s) (showOverlays s)
    (timers s) (events s).

Definition setActiveSegmentId (x : option string) (s : State) : State :=
  mkState (videoRef s) (currentSourceId s) (ready s) (currentTime s) x
    (activeHotspot s) (loopCountBySeg s) (userChoseInSegment s) (showOverlays s)
    (timers s) (events s).

Definition setActiveHotspot (x : option Hotspot) (s : State) : State :=
  mkState (videoRef s) (currentSourceId s) (ready s) (currentTime s) (activeSegmentId s)
    x (loopCountBySeg s) (userChoseInSegment s) (showOverlays s)
    (timers s) (events s).

(** [setLoopCountBySeg((prev) => f prev)] *)
Definition setLoopCountBySeg (f : gmap string JsValue -> gmap string JsValue)
    (s : State) : State :=
  mkState (videoRef s) (currentSourceId s) (ready s) (currentTime s) (activeSegmentId s)
    (activeHotspot s) (f (loopCountBySeg s)) (userChoseInSegment s) (showOverlays s)
    (timers s) (events s).

Definition setUserChoseInSegment (x : bool) (s : State) : State :=
  mkState (videoRef s) (currentSourceId s) (ready s) (currentTime s) (activeSegmentId s)
    (activeHotspot s) (loopCountBySeg s) x (showOverlays s)
    (timers s) (events s).

Definition setShowOverlays (x : bool) (s : State) : State :=
  mkState (videoRef s) (currentSourceId s) (ready s) (currentTime s) (activeSegmentId s)
    (activeHotspot s) (loopCountBySeg s) (userChoseInSegment s) x
    (timers s) (events s).

Definition set_timers (x : list Q) (s : State) : State :=
  mkState (videoRef s) (currentSourceId s) (ready s) (currentTime s) (activeSegmentId s)
    (activeHotspot s) (loopCountBySeg s) (userChoseInSegment s) (showOverlays s)
    x (events s).

(** [onEvent(e)] *)
Definition onEvent (e : Event) (s : State) : State :=
  mkState (videoRef s) (currentSourceId s) (ready s) (currentTime s) (activeSegmentId s)
    (activeHotspot s) (loopCountBySeg s) (userChoseInSegment s) (showOverlays s)
    (timers s) (events s ++ [e]).

(** [loopCountBySeg[id] || 0]: the own property when there is one (the
    values that are stored are numbers from [1] on and non-empty strings,
    and [0 || 0] is [0]); otherwise the inherited member, which is truthy,
    for the names of [Object.prototype]; otherwise [0]. *)
Definition loopCount (m : gmap string JsValue) (id : string) : JsValue :=
  match m !! id with
  | Some x => x
  | None => if isPrototypeMember id then Inherited id else Num 0
  end.

(** ** The action dispatcher *)

(** [seekTo(seconds)]; [seekTarget] is its [t], the clamped position
    [clamp(seconds, 0, v.duration || seconds + 0.01)]. An argument that is
    [undefined] makes [t] a [NaN], and the assignment of a non-finite value
    to [v.currentTime] throws a [TypeError]. *)
Definition seekTarget (v : Video) (seconds : Q) : Q :=
  clamp seconds 0
    (match truthyQ (v_duration v) with
     | Some d => d
     | None => (seconds + 0.01)%Q
     end).

Definition seekTo (seconds : option Q) (s : State) : result State :=
  match videoRef s with
  | None => Ok s
  | Some v =>
      match seconds with
      | None => Throw "TypeError"
      | Some sec =>
          let t := seekTarget v sec in
          Ok (set_videoRef (Some (play (set_v_currentTime t v))) s)
      end
  end.

(** [switchSource(sourceId, startAt = 0)] *)
Definition switchSource (sourceId : string) (startAt : Q) (s : State) : State :=
  onEvent (SourceSwitch sourceId startAt)
    (set_timers (timers s ++ [startAt])
       (setReady false (setCurrentSourceId sourceId s))).

(** The callback that [switchSource] gave to [setTimeout]. *)
Definition switchSourceTimeout (startAt : Q) (s : State) : State :=
  match videoRef s with
  | None => s
  | Some v => set_videoRef (Some (play (set_v_currentTime startAt v))) s
  end.

Definition isSome {A : Type} (x : option A) : bool :=
  match x with Some _ => true | None => false end.

(** [performAction(action)] *)
Definition performAction (action : option Action) (s : State) : result State :=
  match action with
  | None => Ok s
  | Some a =>
      if String.eqb (act_type a) "seek" && isSome (act_start a) then
        seekTo (act_start a) s
      else
        match String.eqb (act_type a) "switchSource", truthyS (act_sourceId a) with
        | true, Some sourceId =>
            Ok (switchSource sourceId (default 0%Q (act_startAt a)) s)
        | _, _ => Ok s
        end
  end.

(** [onHotspotClick(hotspot, segment)] *)
Definition onHotspotClick (hotspot : Hotspot) (segment : option Segment)
    (s : State) : result State :=
  let s1 := setUserChoseInSegment true s in
  let s2 := setShowOverlays false s1 in
  let s3 := onEvent (HotspotClick (hs_id hotspot) (option_map seg_id segment)) s2 in
  do s4 <- performAction (hs_action hotspot) s3;
  Ok (setActiveHotspot (Some hotspot) s4).

(** [onChoiceEnd(hotspot, segment)] *)
Definition onChoiceEnd (hotspot : Hotspot) (segment : option Segment)
    (s : State) : result State :=
  let s1 := setUserChoseInSegment true s in
  let s2 := setShowOverlays false s1 in
  let s3 := onEvent (HotspotClick (hs_id hotspot) (option_map seg_id segment)) s2 in
  performAction (hs_action hotspot) s3.

(** ** Rounding to a double *)

(** [floor (log2 x)] for [x > 0]. *)
Definition ilog2 (x : Q) : Z :=
  let k := (Z.log2 (Qnum x) - Z.log2 (Zpos (Qden x)))%Z in
  if Qle_bool (Qpower 2 k) x then k else (k - 1)%Z.

(** The nearest integer, a tie going to the even one. *)
Definition roundEven (y : Q) : Z :=
  let f := Qfloor y in
  match Qcompare (y - inject_Z f) (1 # 2) with
  | Lt => f
  | Gt => (f + 1)%Z
  | Eq => if Z.even f then f else (f + 1)%Z
  end.

(** The double (IEEE 754 binary64, round to nearest, ties to even) nearest
    to [x]: 53 significant bits, and the fixed spacing [2^-1074] below
    [2^-1022]. Overflow is left out: adding [0.05] to a double never
    overflows. *)
Definition double (x : Q) : Q :=
  if Qeq_bool x 0 then 0
  else
    let q := Qpower 2 (Z.max (ilog2 (Qabs x)) (-1022) - 52) in
    inject_Z (roundEven (x / q)) * q.

(** [end + 0.05] as the code computes it: [end] and the literal [0.05]
    are the doubles nearest to what the configuration and the code write,
    and their sum is rounded. For [end = 0.1] the sum is a tie, which goes
    up, to [0.15000000000000002]. *)
Definition watchBoundary (e : Q) : Q := double (double e + double 0.05).

(** ** The effects of a render *)

Definition Qgt_bool (x y : Q) : bool := negb (Qle_bool x y).

(** [activeHotspot.action?.end] *)
Definition hotspotEnd (h : Hotspot) : option Q :=
  match hs_action h with
  | Some a => act_end a
  | None => None
  end.

(** The chained boundary watch: the effect on [[currentTime, activeHotspot]].
    The segment it looks up is not used. *)
Definition chainedEffect (r s : State) : result State :=
  match activeHotspot r with
  | Some h =>
      match truthyQ (hotspotEnd h) with
      | Some e =>
          if Qgt_bool (currentTime r) (watchBoundary e) then
            seekTo (hs_onEnd h) (setActiveHotspot None s)
          else Ok s
      | None => Ok s
      end
  | None => Ok s
  end.

(** [activeSegmentId !== activeSegment.id] *)
Definition differsFrom (activeSegmentId : option string) (id : string) : bool :=
  match activeSegmentId with
  | Some x => negb (String.eqb x id)
  | None => true
  end.

(** [typeof seg.maxLoops === 'number' && loops >= seg.maxLoops]; a string
    made of a member of [Object.prototype] converts to [NaN], which
    compares [false]. *)
Definition reachedMax (seg : Segment) (loops : JsValue) : bool :=
  match seg_maxLoops seg, loops with
  | Some m, Num n => (m <=? n)%Z
  | _, _ => false
  end.

(** The exit policy: the statements of the segment effect between the test
    [if (activeSegmentId)] and [setActiveSegmentId(null)], for the id
    [sid] of the segment that was left. *)
Definition exitPolicy (p : Props) (r : State) (sid : string) (s : State) : result State :=
  match List.find (fun x => String.eqb (seg_id x) sid) (segments (config p)) with
  | Some seg =>
      if seg_requireChoice seg && seg_loopOnNoChoice seg
         && negb (userChoseInSegment r) then
        let loops := plusOne (loopCount (loopCountBySeg r) (seg_id seg)) in
        let s1 := setLoopCountBySeg (fun prev => <[seg_id seg := loops]> prev) s in
        let s2 := onEvent (SegmentLoop (seg_id seg) loops) s1 in
        if reachedMax seg loops && isSome (seg_defaultAction seg) then
          do s3 <- performAction (seg_defaultAction seg) s2;
          Ok (onEvent (SegmentAutoselect (seg_id seg)) s3)
        else seekTo (Some (seg_start seg)) s2
      else Ok s
  | None => Ok s
  end.

(** Segment entry / exit: the effect on [[activeSegment, currentTime]]. *)
Definition segmentEffect (p : Props) (r s : State) : result State :=
  match activeSegment (config p) (currentTime r) with
  | Some seg =>
      if differsFrom (activeSegmentId r) (seg_id seg) then
        Ok (onEvent (SegmentEnter (seg_id seg))
              (setShowOverlays true
                 (setUserChoseInSegment false
                    (setActiveSegmentId (Some (seg_id seg)) s))))
      else Ok s
  | None =>
      match truthyS (activeSegmentId r) with
      | Some sid =>
          do s1 <- exitPolicy p r sid s;
          Ok (setShowOverlays false (setActiveSegmentId None s1))
      | None => Ok s
      end
  end.

(** ** Renders *)

#[global] Instance Q_eq_dec : EqDecision Q.
Proof. solve_decision. Defined.
#[global] Instance Action_eq_dec : EqDecision Action.
Proof. solve_decision. Defined.
#[global] Instance Hotspot_eq_dec : EqDecision Hotspot.
Proof. solve_decision. Defined.

(** A dependency of an effect changed between the previous render [prev]
    and the render [r]. [activeSegment] is a memo of [currentTime] (and of
    the configuration, which is fixed), so it changes only with it. *)
Definition timeChanged (prev r : State) : bool :=
  negb (Qeq_bool (currentTime prev) (currentTime r)).

Definition hotspotChanged (prev r : State) : bool :=
  negb (bool_decide (activeHotspot prev = activeHotspot r)).

(** The effects that React runs after the render [r] that follows the
    render [prev], in the order of their declaration. The effects that
    attach the listeners of the media element and of the keyboard do not
    touch the state. *)
Definition runEffects (p : Props) (prev r : State) : result State :=
  do s1 <- (if timeChanged prev r || hotspotChanged prev r
            then chainedEffect r r else Ok r);
  if timeChanged prev r then segmentEffect p r s1 else Ok s1.

(** The state that an event handler left is rendered and its effects run;
    what they set is rendered once more. After that nothing changes any
    more (see [commit_settled]). *)
Definition commit (p : Props) (prev s : State) : result State :=
  do s1 <- runEffects p prev s;
  runEffects p s s1.

(** ** Mounting the component *)

Definition freshVideo : Video := mkVideo 0 None true false.

Definition initialState (p : Props) : State :=
  mkState (Some freshVideo) (initialSourceId p) false 0 None None ∅ false true [] [].

(** The first render: every effect runs once. The component validates
    nothing and throws nothing of its own. *)
Definition InteractiveVideoPlayer (p : Props) : result State :=
  let r := initialState p in
  do s1 <- chainedEffect r r;
  do s2 <- segmentEffect p r s1;
  runEffects p r s2.

(** The player once it is mounted. *)
Definition mounted (p : Props) : State :=
  match InteractiveVideoPlayer p with
  | Ok s => s
  | Throw _ => initialState p
  end.

(** ** Inputs *)

Inductive Input : Type :=
| Media (v : Video)
| TimeUpdate
| LoadedMetadata
| Click (idx : nat)
| ClickFading (hotspot : Hotspot) (segment : Segment)
| KeyDown (key : ascii)
| Timeout.

(** [Media v]: the media element moved on by itself (playback progress,
    metadata, a seek of the native controls) to the state [v].
    [TimeUpdate], [LoadedMetadata]: the element fired the event.
    [Click idx]: the button at position [idx] of the overlay as it is
    rendered was clicked. [ClickFading hotspot segment]: a button was
    clicked that is no longer rendered but still in the document, because
    [AnimatePresence] keeps an overlay that left the render, with the
    handlers of its last render, until its exit fade is over; the handler
    of a button has no test of its own. [KeyDown key]: a key went down
    whose [e.key] is the one character [key]; an event whose [e.key] has
    several characters is not an input of the model (those that a
    keyboard produces are names, which begin with a letter and fail the
    test of [handleKey]). [Timeout]: the oldest pending callback of [setTimeout]
    runs. *)

(** [(activeSegment.hotspots || []).filter((h) => h.visible !== false)] *)
Definition visibleHotspots (seg : Segment) : list Hotspot :=
  List.filter
    (fun h => match hs_visible h with Some false => false | _ => true end)
    (seg_hotspots seg).

(** [e.key >= '1' && e.key <= '9'], then [Number(e.key) - 1], for a key
    of one character. *)
Definition keyIndex (key : ascii) : option nat :=
  let code := nat_of_ascii key in
  if (49 <=? code)%nat && (code <=? 57)%nat then Some (code - 49)%nat else None.

(** The choice of the hotspot at position [idx] of the rendered overlay:
    the overlay is rendered, and [handleKey] goes on, only while
    [activeSegment] is set and [showOverlays] holds. *)
Definition choose (p : Props) (idx : nat) (s : State) : result State :=
  match activeSegment (config p) (currentTime s) with
  | Some seg =>
      if showOverlays s then
        match List.nth_error (visibleHotspots seg) idx with
        | Some hs => onHotspotClick hs (Some seg) s
        | None => Ok s
        end
      else Ok s
  | None => Ok s
  end.

(** [onTime]: [setCurrentTime(v.currentTime || 0)] *)
Definition onTime (s : State) : State :=
  match videoRef s with
  | Some v => setCurrentTime (v_currentTime v) s
  | None => s
  end.

Definition handle (p : Props) (i : Input) (s : State) : result State :=
  match i with
  | Media v =>
      Ok (match videoRef s with
          | Some _ => set_videoRef (Some v) s
          | None => s
          end)
  | TimeUpdate => Ok (onTime s)
  | LoadedMetadata => Ok (setReady true s)
  | Click idx => choose p idx s
  | ClickFading hotspot segment => onHotspotClick hotspot (Some segment) s
  | KeyDown key =>
      match keyIndex key with
      | Some idx => choose p idx s
      | None => Ok s
      end
  | Timeout =>
      Ok (match timers s with
          | startAt :: rest => switchSourceTimeout startAt (set_timers rest s)
          | [] => s
          end)
  end.

(** One input: its handler, then the renders it causes. *)
Definition step (p : Props) (s : State) (i : Input) : result State :=
  do s1 <- handle p i s;
  commit p s s1.

Fixpoint run (p : Props) (s : State) (inputs : list Input) : result State :=
  match inputs with
  | [] => Ok s
  | i :: rest => do s1 <- step p s i; run p s1 rest
  end.

(** A clock tick: the media element is at [t] and fires [timeupdate]. *)
Definition tickInputs (t : Q) (s : State) : list Input :=
  match videoRef s with
  | Some v => [Media (set_v_currentTime t v); TimeUpdate]
  | None => [TimeUpdate]
  end.

Definition tick (p : Props) (t : Q) (s : State) : result State :=
  run p s (tickInputs t s).

Fixpoint ticks (p : Props) (ts : list Q) (s : State) : result State :=
  match ts with
  | [] => Ok s
  | t :: rest => do s1 <- tick p t s; ticks p rest s1
  end.

(** ** The example configuration of [App.jsx] *)

Definition seekStart (start : Q) (e : option Q) : Action :=
  mkAction "seek" None (Some start) e None None.

Definition seekToShape (to : Q) : Action :=
  mkAction "seek" (Some to) None None None None.

Definition exampleSources : list Source := [mkSource "main" "car.mp4"].

Definition exampleConfig : Config :=
  mkConfig
    [ mkSegment "choice-1" 10 13 true true None (Some (seekToShape 14))
        [ mkHotspot "toA" (Some "Go to Scene A") None
            (Some (seekStart 14 (Some 16%Q))) (Some 67%Q);
          mkHotspot "toB" (Some "Go to Scene B") None
            (Some (seekStart 46 None)) (Some 67%Q) ];
      mkSegment "choice-2" 69 72 true true None (Some (seekToShape 14))
        [ mkHotspot "toA" (Some "Go to Scene A") None
            (Some (seekStart 73 (Some 113%Q))) (Some 125%Q);
          mkHotspot "toB" (Some "Go to Scene B") None
            (Some (seekStart 114 None)) (Some 125%Q) ] ].

Definition App : Props := mkProps exampleSources "main" exampleConfig.

(** ** States of a tick *)

(** The state variables that only the segment effect and the hotspot
    handlers write. *)
Definition sameChoiceState (s s' : State) : Prop :=
  currentTime s' = currentTime s
  /\ activeSegmentId s' = activeSegmentId s
  /\ activeHotspot s' = activeHotspot s
  /\ loopCountBySeg s' = loopCountBySeg s
  /\ userChoseInSegment s' = userChoseInSegment s
  /\ showOverlays s' = showOverlays s.

(** The state that the render of a tick at [t] sees. *)
Definition atTime (t : Q) (v : Video) (s : State) : State :=
  setCurrentTime t (set_videoRef (Some (set_v_currentTime t v)) s).

(** The state [Idle] of the tracker, as the segment effect sets it. *)
Definition idle (s : State) : State :=
  setShowOverlays false (setActiveSegmentId None s).

(** The entry into a segment, as the segment effect sets it. *)
Definition entered (seg : Segment) (s : State) : State :=
  onEvent (SegmentEnter (seg_id seg))
    (setShowOverlays true
       (setUserChoseInSegment false (setActiveSegmentId (Some (seg_id seg)) s))).

(** The state after the exit policy counted one more loop of [S] in the
    render of the tick at [t]. *)
Definition counted (S : Segment) (n : JsValue) (t : Q) (v : Video) (s : State) : State :=
  onEvent (SegmentLoop (seg_id S) n)
    (setLoopCountBySeg (fun prev => <[seg_id S := n]> prev) (atTime t v s)).

Definition mediaAt (t : Q) : Input := Media (mkVideo t None true false).

(** ** Further configurations and states *)

(** A configuration with every defect a validation would report: two
    segments share the id [dup], the second one has [start >= end], two
    hotspots of the first one share the id [h], and two actions name the
    source [ghost], which the catalogue does not have. *)
Definition brokenProps : Props :=
  mkProps [mkSource "main" "car.mp4"] "main"
    (mkConfig
       [ mkSegment "dup" 10 13 true true (Some 1%Z)
           (Some (mkAction "switchSource" None None None (Some "ghost") None))
           [ mkHotspot "h" None None
               (Some (mkAction "switchSource" None None None (Some "ghost") None)) None;
             mkHotspot "h" None None (Some (seekStart 14 None)) None ];
         mkSegment "dup" 20 10 false false None None [] ]).

Definition rangeHotspot : Hotspot :=
  mkHotspot "toA" None None (Some (seekStart 14 (Some 30%Q))) (Some 67%Q).

(** Two sources; the hotspot of [s1] plays the range from [14] to [30] and
    then goes on at [67]; inside that range the segment [s2] switches to
    [altA] by default after one loop. *)
Definition twoSources : Props :=
  mkProps [mkSource "main" "car.mp4"; mkSource "altA" "videoA.mp4"] "main"
    (mkConfig
       [ mkSegment "s1" 10 13 true true None None [rangeHotspot];
         mkSegment "s2" 20 22 true true (Some 1%Z)
           (Some (mkAction "switchSource" None None None (Some "altA") None)) [] ]).

Definition switchHotspot : Hotspot :=
  mkHotspot "toAlt" None None
    (Some (mkAction "switchSource" None None None (Some "altA") None)) None.

(** As [twoSources], but [s2] offers the switch to [altA] as a hotspot. *)
Definition twoSourcesChoice : Props :=
  mkProps [mkSource "main" "car.mp4"; mkSource "altA" "videoA.mp4"] "main"
    (mkConfig
       [ mkSegment "s1" 10 13 true true None None [rangeHotspot];
         mkSegment "s2" 20 22 true true None None [switchHotspot] ]).

(** A hotspot of a late segment whose range lies before the segment. *)
Definition backwardRange : Props :=
  mkProps exampleSources "main"
    (mkConfig
       [ mkSegment "choice-2" 69 72 true true None None
           [ mkHotspot "toA" (Some "Go to Scene A") None
               (Some (seekStart 14 (Some 16%Q))) (Some 67%Q) ] ]).

(** The player of the example inside [choice-1], at [11]. *)
Definition inChoice1 : State :=
  match run App (mounted App) [mediaAt 11; TimeUpdate] with
  | Ok s => s
  | Throw _ => mounted App
  end.

(** Two overlapping segments: [a] asks for a choice and loops, [b] starts
    before [a] ends. *)
Definition overlapping : Props :=
  mkProps exampleSources "main"
    (mkConfig
       [ mkSegment "a" 10 13 true true None None [];
         mkSegment "b" 12 20 false false None None [] ]).

Definition inA : State :=
  match run overlapping (mounted overlapping) [mediaAt 11; TimeUpdate] with
  | Ok s => s
  | Throw _ => mounted overlapping
  end.

(** The segment of the scenario of the specification, its default action
    written with the field [start] that [performAction] reads. *)
Definition c1 : Segment :=
  mkSegment "c1" 10 13 true true (Some 2%Z) (Some (seekStart 14 None)) [].

Definition scenarioC1 : Props := mkProps exampleSources "main" (mkConfig [c1]).

Definition inC1 : State :=
  match run scenarioC1 (mounted scenarioC1) [mediaAt 11; TimeUpdate] with
  | Ok s => s
  | Throw _ => mounted scenarioC1
  end.

(** A looping segment whose id is the name of a member that every plain
    object inherits; it has [maxLoops] and a default action. *)
Definition inherited : Segment :=
  mkSegment "constructor" 10 13 true true (Some 1%Z) (Some (seekStart 14 None)) [].

Definition scenarioInherited : Props :=
  mkProps exampleSources "main" (mkConfig [inherited]).

Definition inInherited : State :=
  match run scenarioInherited (mounted scenarioInherited) [mediaAt 11; TimeUpdate] with
  | Ok s => s
  | Throw _ => mounted scenarioInherited
  end.

(** [c1] followed at once by another segment. *)
Definition adjacent : Props :=
  mkProps exampleSources "main"
    (mkConfig [c1; mkSegment "c2" 13 16 false false None None []]).

Definition inAdjacentC1 : State :=
  match run adjacent (mounted adjacent) [mediaAt 12; TimeUpdate] with
  | Ok s => s
  | Throw _ => mounted adjacent
  end.

(** ** What is rendered *)

(** The hotspots that have a button: the overlay is rendered while
    [activeSegment && showOverlays], with the visible hotspots of the
    active segment. *)
Definition renderedHotspots (p : Props) (s : State) : list Hotspot :=
  match activeSegment (config p) (currentTime s) with
  | Some seg => if showOverlays s then visibleHotspots seg else []
  | None => []
  end.

(** The width, in percent, of the timer bar of the overlay:
    [clamp(((currentTime - start) / Math.max(0.001, end - start)) * 100, 0, 100)]
    for the active segment, [0] without one. *)
Definition timerBarWidth (seg : option Segment) (currentTime : Q) : Q :=
  match seg with
  | Some a =>
      clamp (((currentTime - seg_start a) / Qmax 0.001 (seg_end a - seg_start a)) * 100)
        0 100
  | None => 0
  end.

(** ** Predicates on states and on the event log *)

Definition isLoopOf (id : string) (e : Event) : bool :=
  match e with
  | SegmentLoop sid _ => String.eqb sid id
  | _ => false
  end.

(** The number of [segment.loop] events of the segment [id] in a log. *)
Definition loopsLogged (id : string) (evs : list Event) : nat :=
  length (List.filter (isLoopOf id) evs).

(** The counter that [n] loops of the segment [id] leave: the number [n],
    or, for a name of [Object.prototype], the inherited member and then
    its text followed by [n] characters ['1']. *)
Definition countOf (id : string) (n : nat) : JsValue :=
  if isPrototypeMember id then
    match n with
    | O => Inherited id
    | S _ => Str id n
    end
  else Num (Z.of_nat n).

(** The counter [b] is not below the counter [a]: numbers by their
    order, the strings made of one member by their length. *)
Definition neverBelow (a b : JsValue) : Prop :=
  match a, b with
  | Num x, Num y => (x <= y)%Z
  | Inherited m, Inherited m' => m = m'
  | Inherited m, Str m' _ => m = m'
  | Str m k, Str m' k' => m = m' /\ (k <= k')%nat
  | _, _ => False
  end.

Definition notLoop (e : Event) : Prop :=
  match e with
  | SegmentLoop _ _ => False
  | _ => True
  end.

(** A transition that counted nothing: the counters are the same and the
    log grew by events other than [segment.loop]. *)
Definition quiet (s s' : State) : Prop :=
  loopCountBySeg s' = loopCountBySeg s
  /\ exists tail, events s' = events s ++ tail /\ Forall notLoop tail.

(** A transition that counted one loop of a configured segment that asks
    for a choice and loops. *)
Definition looped (p : Props) (s s' : State) : Prop :=
  exists seg pre tail,
    In seg (segments (config p))
    /\ seg_requireChoice seg = true
    /\ seg_loopOnNoChoice seg = true
    /\ loopCountBySeg s'
       = <[seg_id seg := plusOne (loopCount (loopCountBySeg s) (seg_id seg))]>
           (loopCountBySeg s)
    /\ events s'
       = events s ++ pre
         ++ SegmentLoop (seg_id seg) (plusOne (loopCount (loopCountBySeg s) (seg_id seg)))
            :: tail
    /\ Forall notLoop pre
    /\ Forall notLoop tail.

(** The counter of every segment id is the one that the [segment.loop]
    events of that id in the log leave. *)
Definition logged (s : State) : Prop :=
  forall id, loopCount (loopCountBySeg s) id = countOf id (loopsLogged id (events s)).

(** A counter is stored only for a configured segment that asks for a
    choice and loops, and a stored number is at least [1]. *)
Definition countersOfLoops (p : Props) (s : State) : Prop :=
  forall id x,
    loopCountBySeg s !! id = Some x ->
    (exists seg,
        In seg (segments (config p)) /\ seg_id seg = id
        /\ seg_requireChoice seg = true /\ seg_loopOnNoChoice seg = true)
    /\ (forall n, x = Num n -> (1 <= n)%Z)
    /\ (forall m, x <> Inherited m).

(** The tracker follows the resolver. *)
Definition tracking (p : Props) (s : State) : Prop :=
  activeSegmentId s = option_map seg_id (activeSegment (config p) (currentTime s)).

Definition idsNonEmpty (p : Props) : Prop :=
  Forall (fun seg => seg_id seg <> "") (segments (config p)).

(** The test of the chained effect on a state: a hotspot is pending, its
    action has a truthy [end], and the time is past the double
    [end + 0.05]. *)
Definition watchDue (s : State) : bool :=
  match activeHotspot s with
  | Some h =>
      match truthyQ (hotspotEnd h) with
      | Some e => Qgt_bool (currentTime s) (watchBoundary e)
      | None => false
      end
  | None => false
  end.

(** The inputs of the keyboard. *)
Definition isKeyInput (i : Input) : bool :=
  match i with
  | KeyDown _ => true
  | _ => false
  end.

(** The inputs of the hotspot input surface. *)
Definition isChoiceInput (i : Input) : bool :=
  match i with
  | Click _ | ClickFading _ _ | KeyDown _ => true
  | _ => false
  end.

(** A segment whose first hotspot is not visible. *)
Definition hiddenHotspot : Props :=
  mkProps exampleSources "main"
    (mkConfig
       [ mkSegment "c" 10 13 true true None None
           [ mkHotspot "hidden" None (Some false) (Some (seekStart 50 None)) None;
             mkHotspot "shown" None None (Some (seekStart 30 None)) None ] ]).

(** A segment that asks for a choice and loops, with the empty id. *)
Definition emptyId : Props :=
  mkProps exampleSources "main"
    (mkConfig [mkSegment "" 10 13 true true None None []]).

(** * Properties *)

(** ** Comparisons *)

Lemma Qgt_bool_iff (x y : Q) : Qgt_bool x y = true <-> (y < x)%Q.
Proof.
  unfold Qgt_bool. rewrite negb_true_iff.
  destruct (Qle_bool x y) eqn:E.
  - apply Qle_bool_iff in E. split; [discriminate | lra].
  - split; [intros _ | reflexivity].
    destruct (Qlt_le_dec y x) as [H | H]; [exact H |].
    apply Qle_bool_iff in H. congruence.
Qed.

Lemma inSegment_iff (t : Q) (seg : Segment) :
  inSegment t seg = true <-> (seg_start seg <= t <= seg_end seg)%Q.
Proof.
  unfold inSegment. rewrite andb_true_iff, !Qle_bool_iff. tauto.
Qed.

Lemma inSegment_false_iff (t : Q) (seg : Segment) :
  inSegment t seg = false <-> ~ (seg_start seg <= t <= seg_end seg)%Q.
Proof.
  rewrite <- inSegment_iff. destruct (inSegment t seg); split; congruence.
Qed.

Lemma inSegment_Qeq (t t' : Q) (seg : Segment) :
  (t == t')%Q -> inSegment t' seg = inSegment t seg.
Proof.
  intros E.
  destruct (inSegment t seg) eqn:H.
  - apply inSegment_iff. apply inSegment_iff in H. lra.
  - apply inSegment_false_iff. apply inSegment_false_iff in H. lra.
Qed.

(** ** [Array.prototype.find] *)

Lemma find_first {A : Type} (f : A -> bool) (l : list A) (x : A) :
  List.find f l = Some x <->
  exists before after,
    l = before ++ x :: after /\ f x = true /\ Forall (fun y => f y = false) before.
Proof.
  split.
  - induction l as [| a l IH]; simpl; [discriminate |].
    destruct (f a) eqn:Fa.
    + intros [= ->]. exists [], l. repeat split; [exact Fa | constructor].
    + intros H. destruct (IH H) as (before & after & -> & Fx & Hb).
      exists (a :: before), after. repeat split; [exact Fx |].
      constructor; assumption.
  - intros (before & after & -> & Fx & Hb).
    induction Hb as [| y before Fy _ IH]; simpl.
    + now rewrite Fx.
    + now rewrite Fy.
Qed.

Lemma find_nothing {A : Type} (f : A -> bool) (l : list A) :
  List.find f l = None <-> Forall (fun y => f y = false) l.
Proof.
  induction l as [| a l IH]; simpl.
  - split; [constructor | reflexivity].
  - destruct (f a) eqn:Fa.
    + split; [discriminate |]. intros H. inversion H; congruence.
    + rewrite IH. split; [now constructor | intros H; now inversion H].
Qed.

(** ** The segment resolver *)

(** C5. [activeSegment] returns the first segment, in the order of the
    configuration, whose interval contains the time with both bounds
    included (so overlapping segments are decided for the earliest
    declared); it returns nothing exactly when no interval contains the
    time; and its result is a function of its input alone: the same for
    every call at the same (numerically equal) time. It has no state to
    change: it is a function from the configuration and the time to an
    optional segment. *)
Theorem activeSegment_first_match (cfg : Config) (t : Q) :
  (forall seg,
      activeSegment cfg t = Some seg <->
      exists before after,
        segments cfg = before ++ seg :: after
        /\ (seg_start seg <= t <= seg_end seg)%Q
        /\ Forall (fun x => ~ (seg_start x <= t <= seg_end x)%Q) before)
  /\ (activeSegment cfg t = None <->
      Forall (fun x => ~ (seg_start x <= t <= seg_end x)%Q) (segments cfg))
  /\ (forall t', (t == t')%Q -> activeSegment cfg t' = activeSegment cfg t).
Proof.
  unfold activeSegment. repeat split.
  - intros H. apply find_first in H as (before & after & E & Hx & Hb).
    exists before, after. repeat split; try (apply inSegment_iff in Hx; tauto); auto.
    eapply List.Forall_impl; [| exact Hb]. intros a. apply inSegment_false_iff.
  - intros (before & after & E & Hx & Hb). apply find_first.
    exists before, after. repeat split; auto.
    + now apply inSegment_iff.
    + eapply List.Forall_impl; [| exact Hb]. intros a. apply inSegment_false_iff.
  - intros H. apply find_nothing in H.
    eapply List.Forall_impl; [| exact H]. intros a. apply inSegment_false_iff.
  - intros H. apply find_nothing.
    eapply List.Forall_impl; [| exact H]. intros a. apply inSegment_false_iff.
  - intros t' E. induction (segments cfg) as [| a l IH]; simpl; [reflexivity |].
    rewrite (inSegment_Qeq t t' a E), IH. reflexivity.
Qed.

Lemma activeSegment_first_match_witness :
  activeSegment exampleConfig 11 = activeSegment exampleConfig (22 # 2)
  /\ option_map seg_id (activeSegment exampleConfig 11) = Some "choice-1".
Proof.
  destruct (activeSegment_first_match exampleConfig (22 # 2)) as (_ & _ & H).
  split; [apply H; reflexivity | reflexivity].
Defined.

(** ** The action dispatcher *)

(** C10. [performAction] changes nothing (no seek, no switch of source, no
    state change, no event: the state it returns is the state it was
    given) when its argument is [null] or [undefined], when it is a seek
    action without a numeric [start] (whatever its other fields, [to]
    included), and when it is a [switchSource] action without a [sourceId]
    (or with an empty one); this covers the [defaultAction] of both
    segments of the example configuration. *)
Theorem performAction_noop (s : State) :
  performAction None s = Ok s
  /\ (forall to e sourceId startAt,
         performAction (Some (mkAction "seek" to None e sourceId startAt)) s = Ok s)
  /\ (forall to start e startAt,
         performAction (Some (mkAction "switchSource" to start e None startAt)) s = Ok s
         /\ performAction (Some (mkAction "switchSource" to start e (Some "") startAt)) s
            = Ok s)
  /\ Forall (fun seg => performAction (seg_defaultAction seg) s = Ok s)
       (segments exampleConfig).
Proof.
  repeat split; try reflexivity.
  repeat constructor.
Qed.

Lemma truthyQ_Some (x : option Q) (d : Q) :
  truthyQ x = Some d <-> x = Some d /\ ~ (d == 0)%Q.
Proof.
  unfold truthyQ. destruct x as [q |]; [| split; [discriminate | intros [? _]; discriminate]].
  destruct (Qeq_bool q 0) eqn:E.
  - apply Qeq_bool_iff in E. split; [discriminate |].
    intros [[= ->] H]. contradiction.
  - split.
    + intros [= ->]. split; [reflexivity |].
      intros H. apply Qeq_bool_iff in H. congruence.
    + intros [[= ->] _]. reflexivity.
Qed.

Lemma truthyQ_None (x : option Q) :
  truthyQ x = None <-> x = None \/ exists d, x = Some d /\ (d == 0)%Q.
Proof.
  unfold truthyQ. destruct x as [q |].
  - destruct (Qeq_bool q 0) eqn:E.
    + apply Qeq_bool_iff in E. split; [| reflexivity].
      intros _. right. exists q. auto.
    + split; [discriminate |].
      intros [H | (d & [= ->] & H)]; [discriminate |].
      apply Qeq_bool_iff in H. congruence.
  - split; [auto | reflexivity].
Qed.

Lemma clamp_spec (v lo hi : Q) :
  (lo <= hi)%Q ->
  (lo <= clamp v lo hi <= hi)%Q
  /\ ((lo <= v <= hi)%Q -> (clamp v lo hi == v)%Q)
  /\ ((v < lo)%Q -> (clamp v lo hi == lo)%Q)
  /\ ((hi < v)%Q -> (clamp v lo hi == hi)%Q).
Proof.
  intros H. unfold clamp.
  destruct (Q.max_spec lo (Qmin hi v)) as [[H1 E1] | [H1 E1]];
    destruct (Q.min_spec hi v) as [[H2 E2] | [H2 E2]];
    repeat split; intros; lra.
Qed.

(** With an unknown duration the upper bound is [seconds + 0.01], which
    never cuts. *)
Lemma clamp_below_only (v : Q) :
  (clamp v 0 (v + 0.01) == Qmax 0 v)%Q.
Proof.
  unfold clamp.
  destruct (Q.max_spec 0 (Qmin (v + 0.01) v)) as [[H1 E1] | [H1 E1]];
    destruct (Q.min_spec (v + 0.01) v) as [[H2 E2] | [H2 E2]];
    destruct (Q.max_spec 0 v) as [[H3 E3] | [H3 E3]]; lra.
Qed.

Lemma seekTarget_known (v : Video) (d sec : Q) :
  v_duration v = Some d -> ~ (d == 0)%Q -> seekTarget v sec = clamp sec 0 d.
Proof.
  intros Hd Hz. unfold seekTarget.
  now rewrite (proj2 (truthyQ_Some (v_duration v) d) (conj Hd Hz)).
Qed.

Lemma seekTarget_unknown (v : Video) (sec : Q) :
  truthyQ (v_duration v) = None -> (seekTarget v sec == Qmax 0 sec)%Q.
Proof.
  intros H. unfold seekTarget. rewrite H. apply clamp_below_only.
Qed.

(** C9, as the code has it. Dispatching a seek action with a numeric
    [start] on a mounted player sets the position of the media element to
    the clamped target and then calls [play()], whose rejection changes
    nothing and throws nothing. The target is clamped to [[0, duration]]
    when the element reports a duration other than zero; when the duration
    is unknown ([NaN]) or zero it is clamped below at [0] only. *)
Theorem seek_clamps_and_resumes (s : State) (v : Video) (target : Q)
    (to e : option Q) (sourceId : option string) (startAt : option Q) :
  exists t,
    performAction (Some (mkAction "seek" to (Some target) e sourceId startAt))
      (set_videoRef (Some v) s)
    = Ok (set_videoRef (Some (play (set_v_currentTime t v))) s)
    /\ (forall d, v_duration v = Some d -> (0 < d)%Q ->
          (t == Qmax 0 (Qmin d target))%Q /\ (0 <= t <= d)%Q
          /\ ((0 <= target <= d)%Q -> (t == target)%Q))
    /\ ((v_duration v = None \/ exists d, v_duration v = Some d /\ (d == 0)%Q) ->
          (t == Qmax 0 target)%Q /\ (0 <= t)%Q /\ ((0 <= target)%Q -> (t == target)%Q))
    /\ v_currentTime (play (set_v_currentTime t v)) = t
    /\ v_paused (play (set_v_currentTime t v))
       = (if v_playRejects v then v_paused v else false).
Proof.
  exists (seekTarget v target). split; [reflexivity |].
  split; [| split; [| split]].
  - intros d Hd Hpos.
    rewrite (seekTarget_known v d target Hd) by lra.
    destruct (clamp_spec target 0 d) as (Hr & Hin & _); [lra |].
    repeat split; try tauto; reflexivity.
  - intros H. apply truthyQ_None in H.
    pose proof (seekTarget_unknown v target H) as E.
    destruct (Q.max_spec 0 target) as [[H1 E1] | [H1 E1]]; repeat split; intros; lra.
  - unfold play, set_v_currentTime. simpl. now destruct (v_playRejects v).
  - unfold play, set_v_currentTime. simpl. now destruct (v_playRejects v).
Qed.

Lemma seek_clamps_and_resumes_witness :
  exists t,
    performAction (Some (seekStart 14 None))
      (set_videoRef (Some (mkVideo 3 (Some 100%Q) true true)) (mounted App))
    = Ok (set_videoRef (Some (play (set_v_currentTime t (mkVideo 3 (Some 100%Q) true true))))
            (mounted App))
    /\ (t == 14)%Q.
Proof.
  destruct (seek_clamps_and_resumes (mounted App)
              (mkVideo 3 (Some 100%Q) true true) 14 None None None None)
    as (t & E & Hknown & _).
  exists t. split; [exact E |].
  destruct (Hknown 100%Q) as (_ & _ & H); [reflexivity | lra |].
  apply H. lra.
Defined.

(** C9, counterexample. The media element reports the duration [0]; the
    seek to [5] leaves the position at [5], outside [[0, duration]]. *)
Lemma seek_zero_duration_unclamped :
  exists v',
    performAction (Some (seekStart 5 None))
      (set_videoRef (Some (mkVideo 3 (Some 0%Q) false false)) (mounted App))
    = Ok (set_videoRef (Some v') (mounted App))
    /\ v_duration v' = Some 0%Q
    /\ v_currentTime v' = 5%Q
    /\ ~ (0 <= v_currentTime v' <= 0)%Q.
Proof.
  eexists. split; [reflexivity |].
  split; [reflexivity |]. split; [reflexivity |].
  vm_compute. intros [_ H]. apply H. reflexivity.
Qed.

(** C1, as the code has it. Dispatching a [switchSource] action with a
    non-empty [sourceId] never consults the catalogue: it sets
    [currentSourceId] to that id, marks the player not ready, schedules the
    seek to [startAt] (default [0]) and emits [source.switch] and nothing
    else; it throws nothing and leaves the media element, the pending
    chained watch and the loop counters alone. For an id that is not in the
    catalogue the source that is rendered is the first one of the
    catalogue. *)
Theorem switchSource_unchecked (p : Props) (s : State) (to start e : option Q)
    (sid : string) (startAt : option Q) :
  sid <> "" ->
  exists s',
    performAction (Some (mkAction "switchSource" to start e (Some sid) startAt)) s = Ok s'
    /\ currentSourceId s' = sid
    /\ ready s' = false
    /\ events s' = events s ++ [SourceSwitch sid (default 0%Q startAt)]
    /\ timers s' = timers s ++ [default 0%Q startAt]
    /\ videoRef s' = videoRef s
    /\ activeHotspot s' = activeHotspot s
    /\ loopCountBySeg s' = loopCountBySeg s
    /\ (List.find (fun x => String.eqb (src_id x) sid) (sources p) = None ->
        currentSource p (currentSourceId s') = List.hd_error (sources p)).
Proof.
  intros Hne.
  exists (switchSource sid (default 0%Q startAt) s).
  split.
  - unfold performAction. cbn [act_type act_start act_sourceId act_startAt].
    change (String.eqb "switchSource" "seek") with false. cbn [andb].
    change (String.eqb "switchSource" "switchSource") with true.
    unfold truthyS. destruct (String.eqb_spec sid ""); [contradiction | reflexivity].
  - repeat split. intros H. unfold currentSource. cbn. now rewrite H.
Qed.

Lemma switchSource_unchecked_witness :
  exists s',
    performAction (Some (mkAction "switchSource" None None None (Some "ghost") None))
      (mounted App) = Ok s'
    /\ currentSourceId s' = "ghost"
    /\ currentSource App (currentSourceId s') = Some (mkSource "main" "car.mp4").
Proof.
  destruct (switchSource_unchecked App (mounted App) None None None "ghost" None)
    as (s' & E & Hid & _ & _ & _ & _ & _ & _ & Hsrc); [discriminate |].
  exists s'. split; [exact E |]. split; [exact Hid |].
  rewrite Hsrc; reflexivity.
Defined.

(** C1, counterexample. The catalogue of the example has the one source
    [main]; dispatching a switch to [ghost] on the mounted player changes
    [currentSourceId] from [main] to [ghost], and the one event it emits is
    [source.switch]. *)
Lemma switchSource_unknown_id_is_set :
  exists s0 s',
    InteractiveVideoPlayer App = Ok s0
    /\ List.find (fun x => String.eqb (src_id x) "ghost") (sources App) = None
    /\ performAction (Some (mkAction "switchSource" None None None (Some "ghost") None)) s0
       = Ok s'
    /\ currentSourceId s0 = "main"
    /\ currentSourceId s' = "ghost"
    /\ currentSourceId s' <> currentSourceId s0
    /\ List.map evt_type (events s') = ["source.switch"].
Proof.
  eexists. eexists.
  split; [reflexivity |]. split; [reflexivity |]. split; [reflexivity |].
  split; [reflexivity |]. split; [reflexivity |]. split; [discriminate | reflexivity].
Qed.

(** ** What the dispatcher and the effects leave alone *)

Lemma seekTo_frame (seconds : option Q) (s s' : State) :
  seekTo seconds s = Ok s' -> s' = set_videoRef (videoRef s') s.
Proof.
  unfold seekTo. intros H.
  destruct (videoRef s) as [v |] eqn:V.
  - destruct seconds; [| discriminate]. injection H as <-. reflexivity.
  - injection H as <-. rewrite V. rewrite <- V. destruct s; reflexivity.
Qed.

Lemma seekTo_sameChoiceState (seconds : option Q) (s s' : State) :
  seekTo seconds s = Ok s' -> sameChoiceState s s' /\ events s' = events s.
Proof.
  intros H. rewrite (seekTo_frame _ _ _ H). repeat split.
Qed.

Lemma performAction_sameChoiceState (a : option Action) (s s' : State) :
  performAction a s = Ok s' -> sameChoiceState s s'.
Proof.
  unfold performAction. intros H.
  repeat case_match; simplify_eq;
    try (apply seekTo_sameChoiceState in H; tauto); repeat split.
Qed.

Lemma chainedEffect_frame (r s s' : State) :
  chainedEffect r s = Ok s' ->
  currentTime s' = currentTime s
  /\ activeSegmentId s' = activeSegmentId s
  /\ loopCountBySeg s' = loopCountBySeg s
  /\ userChoseInSegment s' = userChoseInSegment s
  /\ showOverlays s' = showOverlays s
  /\ events s' = events s
  /\ (activeHotspot s' = activeHotspot s \/ activeHotspot s' = None).
Proof.
  unfold chainedEffect. intros H.
  repeat case_match; simplify_eq; try (repeat split; tauto).
  apply seekTo_sameChoiceState in H as ((? & ? & ? & ? & ? & ?) & ?).
  repeat split; try assumption. right. assumption.
Qed.

Lemma loopCount_insert (m : gmap string JsValue) (id id' : string) (x : JsValue) :
  loopCount (<[id := x]> m) id' = if decide (id = id') then x else loopCount m id'.
Proof.
  unfold loopCount. rewrite lookup_insert. now case_decide.
Qed.

Lemma neverBelow_refl (a : JsValue) : neverBelow a a.
Proof. destruct a; cbn; auto with zarith. Qed.

Lemma neverBelow_trans (a b c : JsValue) :
  neverBelow a b -> neverBelow b c -> neverBelow a c.
Proof.
  destruct a, b, c; cbn; intros; try tauto; try lia;
    try (intuition (subst; auto; lia)); congruence.
Qed.

Lemma neverBelow_plusOne (a : JsValue) : neverBelow a (plusOne a).
Proof. destruct a; cbn; auto with zarith. Qed.

(** The exit policy writes the counter it read plus one: as long as the
    render it runs in has the counters of the state, no counter goes
    down. *)
Lemma exitPolicy_frame (p : Props) (r s s' : State) (sid : string) :
  exitPolicy p r sid s = Ok s' ->
  loopCountBySeg s = loopCountBySeg r ->
  currentTime s' = currentTime s
  /\ activeSegmentId s' = activeSegmentId s
  /\ activeHotspot s' = activeHotspot s
  /\ userChoseInSegment s' = userChoseInSegment s
  /\ forall id,
       neverBelow (loopCount (loopCountBySeg s) id) (loopCount (loopCountBySeg s') id).
Proof.
  unfold exitPolicy. intros H E.
  destruct (List.find _ _) as [seg |];
    [| simplify_eq; repeat split; intros; apply neverBelow_refl].
  destruct (_ && _ && _); [| simplify_eq; repeat split; intros; apply neverBelow_refl].
  set (loops := plusOne (loopCount (loopCountBySeg r) (seg_id seg))) in *.
  set (s2 := onEvent _ _) in *.
  assert (Hs2 : forall id,
             neverBelow (loopCount (loopCountBySeg s) id)
               (loopCount (loopCountBySeg s2) id)).
  { intros id. subst s2. cbn. rewrite loopCount_insert.
    case_decide; [subst id; subst loops; rewrite E; apply neverBelow_plusOne |].
    apply neverBelow_refl. }
  destruct (_ && _).
  - destruct (performAction _ s2) as [s3 |] eqn:P; [| discriminate].
    cbn in H. simplify_eq.
    apply performAction_sameChoiceState in P as (? & ? & ? & Hl & ? & ?).
    cbn. rewrite Hl. repeat split; try assumption.
  - apply seekTo_sameChoiceState in H as ((? & ? & ? & Hl & ? & ?) & ?).
    rewrite Hl. repeat split; assumption.
Qed.

Lemma segmentEffect_frame (p : Props) (r s s' : State) :
  segmentEffect p r s = Ok s' ->
  loopCountBySeg s = loopCountBySeg r ->
  currentTime s' = currentTime s
  /\ activeHotspot s' = activeHotspot s
  /\ forall id,
       neverBelow (loopCount (loopCountBySeg s) id) (loopCount (loopCountBySeg s') id).
Proof.
  unfold segmentEffect. intros H E.
  destruct (activeSegment _ _) as [seg |].
  - destruct (differsFrom _ _); injection H as <-; cbn; repeat split;
      intros; apply neverBelow_refl.
  - destruct (truthyS _) as [sid |];
      [| injection H as <-; repeat split; intros; apply neverBelow_refl].
    destruct (exitPolicy p r sid s) as [s1 |] eqn:X; [| discriminate].
    cbn in H. injection H as <-. cbn.
    apply exitPolicy_frame in X as (? & ? & ? & ? & ?); auto.
Qed.

Lemma runEffects_frame (p : Props) (prev r s' : State) :
  runEffects p prev r = Ok s' ->
  currentTime s' = currentTime r
  /\ (activeHotspot s' = activeHotspot r \/ activeHotspot s' = None)
  /\ forall id,
       neverBelow (loopCount (loopCountBySeg r) id) (loopCount (loopCountBySeg s') id).
Proof.
  unfold runEffects. intros H.
  destruct (if _ || _ then chainedEffect r r else Ok r) as [s1 |] eqn:C;
    [| discriminate]. cbn in H.
  assert (F1 : currentTime s1 = currentTime r
               /\ loopCountBySeg s1 = loopCountBySeg r
               /\ (activeHotspot s1 = activeHotspot r \/ activeHotspot s1 = None)).
  { destruct (_ || _).
    - apply chainedEffect_frame in C. tauto.
    - simplify_eq. tauto. }
  destruct F1 as (Ht & Hl & Hh).
  destruct (timeChanged prev r).
  - apply segmentEffect_frame in H as (Ht' & Hh' & Hm); [| assumption].
    rewrite Ht', Hh', <- Hl. repeat split; auto; congruence.
  - simplify_eq. rewrite Hl. repeat split; auto; intros; apply neverBelow_refl.
Qed.

(** After the second render nothing is left to do: the first round of
    effects does not set [currentTime], and the one change it can make to
    [activeHotspot] is to clear it, which only re-runs the chained watch
    on an empty slot. *)
Lemma commit_one_round (p : Props) (prev s : State) :
  commit p prev s = runEffects p prev s.
Proof.
  unfold commit. destruct (runEffects p prev s) as [s1 |] eqn:R; [| reflexivity].
  cbn. apply runEffects_frame in R as (Ht & Hh & _).
  unfold runEffects, timeChanged, hotspotChanged. rewrite Ht.
  assert (Qeq_bool (currentTime s) (currentTime s) = true) as ->
    by (apply Qeq_bool_iff; reflexivity).
  cbn. destruct Hh as [Hh | Hh].
  - rewrite Hh, bool_decide_eq_true_2 by reflexivity. reflexivity.
  - case_bool_decide; cbn; [reflexivity |].
    unfold chainedEffect. now rewrite Hh.
Qed.

Lemma commit_settled (p : Props) (prev s s' : State) :
  commit p prev s = Ok s' -> runEffects p s' s' = Ok s'.
Proof.
  intros _. unfold runEffects, timeChanged, hotspotChanged.
  assert (Qeq_bool (currentTime s') (currentTime s') = true) as ->
    by (apply Qeq_bool_iff; reflexivity).
  rewrite bool_decide_eq_true_2 by reflexivity. reflexivity.
Qed.

Lemma onHotspotClick_loopCount (h : Hotspot) (seg : option Segment) (s s' : State) :
  onHotspotClick h seg s = Ok s' -> loopCountBySeg s' = loopCountBySeg s.
Proof.
  unfold onHotspotClick. intros H.
  destruct (performAction _ _) as [s4 |] eqn:P; [| discriminate].
  cbn in H. simplify_eq. cbn.
  apply performAction_sameChoiceState in P as (_ & _ & _ & Hl & _). exact Hl.
Qed.

Lemma handle_loopCount (p : Props) (i : Input) (s s' : State) :
  handle p i s = Ok s' -> loopCountBySeg s' = loopCountBySeg s.
Proof.
  destruct i; cbn; unfold choose, onTime, switchSourceTimeout; intros H;
    repeat case_match; simplify_eq; try reflexivity;
    eapply onHotspotClick_loopCount; eassumption.
Qed.

Lemma step_loopCount_monotone (p : Props) (s s' : State) (i : Input) (id : string) :
  step p s i = Ok s' ->
  neverBelow (loopCount (loopCountBySeg s) id) (loopCount (loopCountBySeg s') id).
Proof.
  unfold step. intros H.
  destruct (handle p i s) as [s1 |] eqn:Hh; [| discriminate]. cbn in H.
  rewrite commit_one_round in H.
  apply runEffects_frame in H as (_ & _ & Hm).
  apply handle_loopCount in Hh. rewrite <- Hh. apply Hm.
Qed.

(** ** Loop counters *)

(** C8. Along every session (every sequence of inputs that the player
    handles, from any state) the loop counter of every segment id at the
    end is not below what it was at the start: no input, handler or effect
    decreases or resets a counter. A counter that is a number stays a
    number and does not go down. For an id that names a member of
    [Object.prototype] the counter is that member and then the string
    that [+ 1] makes of it, which only grows by one character ['1'] a
    loop. *)
Theorem loopCount_monotone (p : Props) (inputs : list Input) (s s' : State)
    (id : string) :
  run p s inputs = Ok s' ->
  neverBelow (loopCount (loopCountBySeg s) id) (loopCount (loopCountBySeg s') id)
  /\ (forall a,
         loopCount (loopCountBySeg s) id = Num a ->
         exists b, loopCount (loopCountBySeg s') id = Num b /\ (a <= b)%Z).
Proof.
  intros H.
  assert (N : neverBelow (loopCount (loopCountBySeg s) id)
                (loopCount (loopCountBySeg s') id)).
  { revert s H. induction inputs as [| i rest IH]; intros s H; cbn in H.
    - simplify_eq. apply neverBelow_refl.
    - destruct (step p s i) as [s1 |] eqn:S1; [| discriminate]. cbn in H.
      apply (step_loopCount_monotone _ _ _ _ id) in S1.
      eapply neverBelow_trans; [exact S1 | exact (IH _ H)]. }
  split; [exact N |].
  intros a Ha. rewrite Ha in N.
  destruct (loopCount (loopCountBySeg s') id) as [b | |]; cbn in N; try contradiction.
  exists b. auto.
Qed.

Lemma loopCount_monotone_witness :
  exists s',
    run App (mounted App)
      [mediaAt 11; TimeUpdate; mediaAt 13.2; TimeUpdate] = Ok s'
    /\ neverBelow (loopCount (loopCountBySeg (mounted App)) "choice-1")
         (loopCount (loopCountBySeg s') "choice-1")
    /\ loopCount (loopCountBySeg s') "choice-1" = Num 1.
Proof.
  eexists. split; [vm_compute; reflexivity |].
  split; [| reflexivity].
  eapply (loopCount_monotone App [mediaAt 11; TimeUpdate; mediaAt 13.2; TimeUpdate]).
  vm_compute. reflexivity.
Defined.

(** ** Construction *)

(** C6, as the code has it. The component validates nothing when it is
    constructed: for every catalogue and configuration the first render and
    its effects succeed, the player starts on [initialSourceId] with empty
    loop counters, and the one thing the configuration decides is whether a
    segment that contains the time [0] is entered. *)
Theorem construction_validates_nothing (p : Props) :
  exists s,
    InteractiveVideoPlayer p = Ok s
    /\ currentSourceId s = initialSourceId p
    /\ loopCountBySeg s = ∅
    /\ activeHotspot s = None
    /\ activeSegmentId s = option_map seg_id (activeSegment (config p) 0)
    /\ events s = match activeSegment (config p) 0 with
                  | Some seg => [SegmentEnter (seg_id seg)]
                  | None => []
                  end.
Proof.
  unfold InteractiveVideoPlayer, runEffects, segmentEffect. cbn.
  destruct (activeSegment (config p) 0) as [seg |]; cbn; eexists; repeat split.
Qed.

(** C6, counterexample. Constructing the player on [brokenProps] succeeds;
    no error is reported. *)
Lemma broken_configuration_is_accepted :
  List.map seg_id (segments (config brokenProps)) = ["dup"; "dup"]
  /\ List.map (fun seg => List.map hs_id (seg_hotspots seg))
       (segments (config brokenProps)) = [["h"; "h"]; []]
  /\ List.map (fun seg => Qle_bool (seg_end seg) (seg_start seg))
       (segments (config brokenProps)) = [false; true]
  /\ List.find (fun x => String.eqb (src_id x) "ghost") (sources brokenProps) = None
  /\ exists s, InteractiveVideoPlayer brokenProps = Ok s /\ events s = [].
Proof.
  repeat split. eexists. split; [vm_compute |]; reflexivity.
Qed.

(** ** Clock ticks *)

Lemma Qeq_bool_refl (x : Q) : Qeq_bool x x = true.
Proof. apply Qeq_bool_iff. reflexivity. Qed.

Lemma timeChanged_iff (prev r : State) :
  timeChanged prev r = true <-> ~ (currentTime prev == currentTime r)%Q.
Proof.
  unfold timeChanged. rewrite negb_true_iff.
  destruct (Qeq_bool _ _) eqn:E.
  - apply Qeq_bool_iff in E. split; [discriminate | tauto].
  - split; [| reflexivity]. intros _ H. apply Qeq_bool_iff in H. congruence.
Qed.

(** A tick renders once, with the chained watch and then the segment
    effect, when the time it reports is new; it does nothing otherwise. *)
Lemma tick_unfold (p : Props) (t : Q) (s : State) (v : Video) :
  videoRef s = Some v ->
  tick p t s =
  if timeChanged s (atTime t v s)
  then (do s1 <- chainedEffect (atTime t v s) (atTime t v s);
        segmentEffect p (atTime t v s) s1)
  else Ok (atTime t v s).
Proof.
  intros V. unfold tick, tickInputs. rewrite V. cbn [run].
  unfold step at 1. cbn [handle]. rewrite V. cbn [bind].
  rewrite commit_one_round.
  unfold runEffects at 1, timeChanged at 1 2, hotspotChanged at 1.
  cbn [currentTime set_videoRef activeHotspot].
  rewrite Qeq_bool_refl, bool_decide_eq_true_2 by reflexivity. cbn [negb orb bind].
  unfold step. cbn [handle bind]. unfold onTime. cbn [videoRef set_videoRef v_currentTime set_v_currentTime].
  rewrite commit_one_round.
  unfold runEffects, hotspotChanged.
  cbn [activeHotspot set_videoRef setCurrentTime].
  rewrite bool_decide_eq_true_2 by reflexivity. cbn [negb].
  rewrite orb_false_r.
  change (timeChanged (set_videoRef (Some (set_v_currentTime t v)) s)
            (setCurrentTime t (set_videoRef (Some (set_v_currentTime t v)) s)))
    with (timeChanged s (atTime t v s)).
  change (setCurrentTime t (set_videoRef (Some (set_v_currentTime t v)) s))
    with (atTime t v s).
  destruct (timeChanged s (atTime t v s)); [| reflexivity].
  destruct (chainedEffect _ _) as [s1 |]; cbn [bind]; [| reflexivity].
  destruct (segmentEffect _ _ _); reflexivity.
Qed.

Lemma tick_unmounted (p : Props) (t : Q) (s : State) :
  videoRef s = None -> tick p t s = Ok s.
Proof.
  intros V. unfold tick, tickInputs. rewrite V. cbn [run].
  unfold step. cbn [handle bind]. unfold onTime. rewrite V.
  rewrite commit_one_round.
  unfold runEffects, timeChanged, hotspotChanged.
  rewrite Qeq_bool_refl, bool_decide_eq_true_2 by reflexivity. reflexivity.
Qed.

(** ** The chained boundary watch *)

Lemma chainedEffect_fires (r s : State) (h : Hotspot) (rangeEnd : Q) :
  activeHotspot r = Some h ->
  hotspotEnd h = Some rangeEnd ->
  ~ (rangeEnd == 0)%Q ->
  (watchBoundary rangeEnd < currentTime r)%Q ->
  chainedEffect r s = seekTo (hs_onEnd h) (setActiveHotspot None s).
Proof.
  intros Hh He Hz Ht. unfold chainedEffect. rewrite Hh.
  rewrite (proj2 (truthyQ_Some _ _) (conj He Hz)).
  now rewrite (proj2 (Qgt_bool_iff _ _) Ht).
Qed.

Lemma chainedEffect_waits (r s : State) (h : Hotspot) (rangeEnd : Q) :
  activeHotspot r = Some h ->
  hotspotEnd h = Some rangeEnd ->
  (currentTime r <= watchBoundary rangeEnd)%Q ->
  chainedEffect r s = Ok s.
Proof.
  intros Hh He Ht. unfold chainedEffect. rewrite Hh, He. unfold truthyQ.
  destruct (Qeq_bool rangeEnd 0); [reflexivity |].
  destruct (Qgt_bool _ _) eqn:G; [| reflexivity].
  apply Qgt_bool_iff in G. lra.
Qed.

(** C7, counterexample. The hotspot of [s1] is activated at [11] (its watch
    is pending while the range plays); [s2] is entered at [21] and left at
    [22.5] without a choice, so its default action switches the source to
    [altA]. The watch is still pending after the switch, and the first
    tick of the new source past [30.05] fires it: the position jumps to
    [67] on [altA]. *)
Lemma chained_watch_fires_after_switch :
  exists s1 s2 s3 v,
    run twoSources (mounted twoSources)
      [mediaAt 11; TimeUpdate; Click 0; mediaAt 14.5; TimeUpdate; mediaAt 21; TimeUpdate]
    = Ok s1
    /\ currentSourceId s1 = "main" /\ activeHotspot s1 = Some rangeHotspot
    /\ run twoSources s1 [mediaAt 22.5; TimeUpdate; Timeout; mediaAt 0.3; TimeUpdate]
       = Ok s2
    /\ currentSourceId s2 = "altA" /\ activeHotspot s2 = Some rangeHotspot
    /\ List.map evt_type (events s2)
       = List.map evt_type (events s1)
         ++ ["segment.loop"; "source.switch"; "segment.autoselect"]
    /\ run twoSources s2 [mediaAt 30.1; TimeUpdate] = Ok s3
    /\ currentSourceId s3 = "altA" /\ activeHotspot s3 = None
    /\ videoRef s3 = Some v /\ v_currentTime v = 67%Q.
Proof.
  do 4 eexists.
  split; [vm_compute; reflexivity |]. split; [reflexivity |]. split; [reflexivity |].
  split; [vm_compute; reflexivity |]. split; [reflexivity |]. split; [reflexivity |].
  split; [reflexivity |].
  split; [vm_compute; reflexivity |]. split; [reflexivity |]. split; [reflexivity |].
  split; reflexivity.
Qed.

(** C4, the code at the failing input. The hotspot with the range from
    [14] to [16] and [onEnd = 67] is activated while the player is at [70].
    Its seek to [14] is performed, but the render that follows the
    activation still has [currentTime = 70], which is past [16.05]: the
    chained effect fires at once, without any time update. After the
    activation no watch is pending and the position is [67]; the range is
    never played. *)
Theorem chained_watch_fires_at_activation :
  exists s1 s2 v,
    run backwardRange (mounted backwardRange) [mediaAt 70; TimeUpdate] = Ok s1
    /\ activeSegmentId s1 = Some "choice-2"
    /\ activeHotspot s1 = None
    /\ step backwardRange s1 (Click 0) = Ok s2
    /\ events s2 = events s1 ++ [HotspotClick "toA" (Some "choice-2")]
    /\ activeHotspot s2 = None
    /\ videoRef s2 = Some v /\ v_currentTime v = 67%Q.
Proof.
  do 3 eexists.
  split; [vm_compute; reflexivity |]. split; [reflexivity |]. split; [reflexivity |].
  split; [vm_compute; reflexivity |]. split; [reflexivity |]. split; [reflexivity |].
  split; reflexivity.
Qed.

(** The scenario of the example configuration, where the range lies after
    the segment: the hotspot [toA] of [choice-1] is activated at [10], the
    position jumps to [14] and the watch is pending; it is still pending at
    [16.04], and the tick at [16.3] clears it and jumps to [67]. *)
Lemma example_chain_scenario :
  exists s1 s2 s3 v1 v3 h,
    run App (mounted App) [mediaAt 10; TimeUpdate; Click 0] = Ok s1
    /\ videoRef s1 = Some v1 /\ v_currentTime v1 = 14%Q
    /\ activeHotspot s1 = Some h /\ hotspotEnd h = Some 16%Q /\ hs_onEnd h = Some 67%Q
    /\ run App s1 [mediaAt 14.1; TimeUpdate; mediaAt 16.04; TimeUpdate] = Ok s2
    /\ activeHotspot s2 = Some h
    /\ run App s2 [mediaAt 16.3; TimeUpdate] = Ok s3
    /\ activeHotspot s3 = None
    /\ videoRef s3 = Some v3 /\ v_currentTime v3 = 67%Q.
Proof.
  do 6 eexists.
  split; [vm_compute; reflexivity |].
  split; [reflexivity |]. split; [reflexivity |]. split; [reflexivity |].
  split; [reflexivity |]. split; [reflexivity |].
  split; [vm_compute; reflexivity |]. split; [reflexivity |].
  split; [vm_compute; reflexivity |]. split; [reflexivity |].
  split; reflexivity.
Qed.

(** ** The tracker and the exit policy *)

Lemma activeSegment_Qeq (cfg : Config) (t t' : Q) :
  (t == t')%Q -> activeSegment cfg t' = activeSegment cfg t.
Proof.
  intros E. unfold activeSegment.
  induction (segments cfg) as [| a l IH]; simpl; [reflexivity |].
  rewrite (inSegment_Qeq t t' a E), IH. reflexivity.
Qed.

Lemma truthyS_nonempty (id : string) : id <> "" -> truthyS (Some id) = Some id.
Proof.
  intros H. unfold truthyS. destruct (String.eqb_spec id ""); [contradiction | reflexivity].
Qed.

Lemma differsFrom_other (id id' : string) : id' <> id -> differsFrom (Some id) id' = true.
Proof.
  intros H. unfold differsFrom. destruct (String.eqb_spec id id'); [congruence | reflexivity].
Qed.

(** Outside every segment and with no segment tracked, a tick only moves
    the clock (and runs the chained watch): it changes no counter, emits
    no event and leaves the tracker idle. *)
Lemma idle_tick (p : Props) (t : Q) (s s' : State) :
  truthyS (activeSegmentId s) = None ->
  activeSegment (config p) t = None ->
  tick p t s = Ok s' ->
  loopCountBySeg s' = loopCountBySeg s
  /\ events s' = events s
  /\ activeSegmentId s' = activeSegmentId s.
Proof.
  intros Hid Hout H.
  destruct (videoRef s) as [v |] eqn:V.
  - rewrite (tick_unfold p t s v V) in H.
    destruct (timeChanged _ _); [| injection H as <-; repeat split].
    destruct (chainedEffect _ _) as [s1 |] eqn:C; [| discriminate]. cbn [bind] in H.
    apply chainedEffect_frame in C as (_ & Ha & Hl & _ & _ & He & _).
    unfold segmentEffect in H. cbn [currentTime atTime setCurrentTime] in H.
    rewrite Hout in H. cbn [activeSegmentId atTime setCurrentTime set_videoRef] in H.
    rewrite Hid in H. injection H as <-. auto.
  - rewrite (tick_unmounted p t s V) in H. injection H as <-. auto.
Qed.

Lemma idle_ticks (p : Props) (ts : list Q) (s s' : State) :
  truthyS (activeSegmentId s) = None ->
  Forall (fun t => activeSegment (config p) t = None) ts ->
  ticks p ts s = Ok s' ->
  loopCountBySeg s' = loopCountBySeg s
  /\ events s' = events s
  /\ activeSegmentId s' = activeSegmentId s.
Proof.
  intros Hid Hts. revert s Hid.
  induction Hts as [| t ts Ht _ IH]; intros s Hid H; cbn [ticks] in H.
  - injection H as <-. auto.
  - destruct (tick p t s) as [s1 |] eqn:T; [| discriminate]. cbn [bind] in H.
    apply idle_tick in T as (Hl & He & Ha); auto.
    destruct (IH s1) as (Hl' & He' & Ha'); [congruence | assumption |].
    repeat split; congruence.
Qed.

(** X19. The player tracks the id of a segment [S], which is not empty.
    On the tick on which the resolver returns no segment, the exit policy
    for the tracked id is applied once, after the chained watch, and the
    tracker becomes idle; the ticks that follow outside every segment,
    however many, change no counter and emit no event, so that over the
    whole burst the policy ran exactly once. On a tick on which the
    resolver returns a segment [S2] with another id, the exit policy is
    not evaluated: the tracker enters [S2] directly, with the counters as
    they were and [segment.enter] as the one event. *)
Theorem exit_policy_once (p : Props) (s : State) (v : Video) (S : Segment) :
  videoRef s = Some v ->
  activeSegment (config p) (currentTime s) = Some S ->
  activeSegmentId s = Some (seg_id S) ->
  seg_id S <> "" ->
  (forall t,
      activeSegment (config p) t = None ->
      tick p t s =
      (do s1 <- chainedEffect (atTime t v s) (atTime t v s);
       do s2 <- exitPolicy p (atTime t v s) (seg_id S) s1;
       Ok (idle s2)))
  /\ (forall t ts s1 s2,
         Forall (fun t' => activeSegment (config p) t' = None) (t :: ts) ->
         tick p t s = Ok s1 ->
         ticks p ts s1 = Ok s2 ->
         activeSegmentId s2 = None
         /\ loopCountBySeg s2 = loopCountBySeg s1
         /\ events s2 = events s1)
  /\ (forall t S2,
         activeSegment (config p) t = Some S2 ->
         seg_id S2 <> seg_id S ->
         tick p t s =
         (do s1 <- chainedEffect (atTime t v s) (atTime t v s); Ok (entered S2 s1))
         /\ forall s',
              tick p t s = Ok s' ->
              activeSegmentId s' = Some (seg_id S2)
              /\ loopCountBySeg s' = loopCountBySeg s
              /\ events s' = events s ++ [SegmentEnter (seg_id S2)]).
Proof.
  intros V Hin Hid Hne.
  assert (Hexit : forall t,
             activeSegment (config p) t = None ->
             tick p t s =
             (do s1 <- chainedEffect (atTime t v s) (atTime t v s);
              do s2 <- exitPolicy p (atTime t v s) (seg_id S) s1;
              Ok (idle s2))).
  { intros t Hout. rewrite (tick_unfold p t s v V).
    assert (timeChanged s (atTime t v s) = true) as ->.
    { apply timeChanged_iff. cbn. intros E.
      rewrite (activeSegment_Qeq _ _ _ E) in Hout. congruence. }
    destruct (chainedEffect _ _) as [s1 |]; [| reflexivity]. cbn [bind].
    unfold segmentEffect. cbn [currentTime atTime setCurrentTime]. rewrite Hout.
    cbn [activeSegmentId atTime setCurrentTime set_videoRef].
    rewrite Hid, (truthyS_nonempty _ Hne). reflexivity. }
  split; [exact Hexit |]. split.
  - intros t ts s1 s2 Hts T Ts.
    inversion Hts as [| ? ? Ht Hts']; subst.
    rewrite (Hexit t Ht) in T.
    destruct (chainedEffect _ _) as [c |]; [| discriminate]. cbn [bind] in T.
    destruct (exitPolicy _ _ _ _) as [e |]; [| discriminate]. cbn [bind] in T.
    injection T as <-.
    apply idle_ticks in Ts as (Hl & He & Ha); auto.
  - intros t S2 Hin2 Hne2.
    assert (E : tick p t s =
                (do s1 <- chainedEffect (atTime t v s) (atTime t v s);
                 Ok (entered S2 s1))).
    { rewrite (tick_unfold p t s v V).
      assert (timeChanged s (atTime t v s) = true) as ->.
      { apply timeChanged_iff. cbn. intros E.
        rewrite (activeSegment_Qeq _ _ _ E) in Hin2. congruence. }
      destruct (chainedEffect _ _) as [s1 |]; [| reflexivity]. cbn [bind].
      unfold segmentEffect. cbn [currentTime atTime setCurrentTime]. rewrite Hin2.
      cbn [activeSegmentId atTime setCurrentTime set_videoRef].
      rewrite Hid, (differsFrom_other _ _ Hne2). reflexivity. }
    split; [exact E |]. intros s' T. rewrite E in T.
    destruct (chainedEffect _ _) as [s1 |] eqn:C; [| discriminate]. cbn [bind] in T.
    injection T as <-.
    apply chainedEffect_frame in C as (_ & _ & Hl & _ & _ & He & _).
    cbn. cbn in Hl, He. rewrite Hl, He. auto.
Qed.

Lemma exit_policy_once_witness :
  exists s1 s2,
    tick App 13.2 inChoice1 = Ok s1
    /\ ticks App [13.4; 13.6; 14]%Q s1 = Ok s2
    /\ loopCount (loopCountBySeg s1) "choice-1" = Num 1
    /\ activeSegmentId s2 = None
    /\ loopCountBySeg s2 = loopCountBySeg s1
    /\ events s2 = events s1.
Proof.
  do 2 eexists.
  split; [vm_compute; reflexivity |].
  split; [vm_compute; reflexivity |].
  split; [reflexivity |].
  destruct (exit_policy_once App inChoice1 (mkVideo 11 None true false)
              (mkSegment "choice-1" 10 13 true true None (Some (seekToShape 14))
                 [ mkHotspot "toA" (Some "Go to Scene A") None
                     (Some (seekStart 14 (Some 16%Q))) (Some 67%Q);
                   mkHotspot "toB" (Some "Go to Scene B") None
                     (Some (seekStart 46 None)) (Some 67%Q) ]))
    as (_ & Hburst & _);
    [reflexivity | reflexivity | reflexivity | discriminate |].
  eapply (Hburst 13.2%Q [13.4; 13.6; 14]%Q).
  - repeat constructor.
  - vm_compute. reflexivity.
  - vm_compute. reflexivity.
Defined.

(** C3, the code at the failing input. The player is in [a], which asks
    for a choice and loops, without a choice; at [13.5] the resolver
    returns the overlapping segment [b]. The tick enters [b] and does not
    evaluate the exit policy of [a] at all: the counter of [a] stays at
    [0] and no [segment.loop] is emitted, where one evaluation of the
    policy, as the exit to no segment makes it, counts [1]. *)
Lemma exit_into_other_segment_skips_policy :
  exists s2 sP,
    activeSegmentId inA = Some "a"
    /\ userChoseInSegment inA = false
    /\ option_map seg_id (activeSegment (config overlapping) 13.5) = Some "b"
    /\ tick overlapping 13.5 inA = Ok s2
    /\ activeSegmentId s2 = Some "b"
    /\ events s2 = events inA ++ [SegmentEnter "b"]
    /\ loopCount (loopCountBySeg s2) "a" = Num 0
    /\ exitPolicy overlapping inA "a" inA = Ok sP
    /\ loopCount (loopCountBySeg sP) "a" = Num 1
    /\ events sP = events inA ++ [SegmentLoop "a" (Num 1)].
Proof.
  do 2 eexists.
  split; [reflexivity |]. split; [reflexivity |]. split; [reflexivity |].
  split; [vm_compute; reflexivity |]. split; [reflexivity |]. split; [reflexivity |].
  split; [reflexivity |].
  split; [vm_compute; reflexivity |]. split; reflexivity.
Qed.

Lemma exit_tick_unfold (p : Props) (s : State) (v : Video) (S : Segment)
    (m c : Z) (a : Action) (t : Q) :
  videoRef s = Some v ->
  List.find (fun x => String.eqb (seg_id x) (seg_id S)) (segments (config p)) = Some S ->
  seg_id S <> "" ->
  seg_requireChoice S = true ->
  seg_loopOnNoChoice S = true ->
  seg_maxLoops S = Some m ->
  seg_defaultAction S = Some a ->
  activeSegmentId s = Some (seg_id S) ->
  userChoseInSegment s = false ->
  loopCount (loopCountBySeg s) (seg_id S) = Num c ->
  activeSegment (config p) t = None ->
  ~ (currentTime s == t)%Q ->
  chainedEffect (atTime t v s) (atTime t v s) = Ok (atTime t v s) ->
  tick p t s =
  (do s1 <- (if (m <=? c + 1)%Z
             then (do s3 <- performAction (Some a) (counted S (Num (c + 1)) t v s);
                   Ok (onEvent (SegmentAutoselect (seg_id S)) s3))
             else seekTo (Some (seg_start S)) (counted S (Num (c + 1)) t v s));
   Ok (idle s1)).
Proof.
  intros V Hfind Hne Hreq Hloop Hmax Hdef Hid Hchose Hc Hout Hnew Hchain.
  rewrite (tick_unfold p t s v V).
  rewrite (proj2 (timeChanged_iff s (atTime t v s)) Hnew).
  rewrite Hchain. cbn [bind].
  unfold segmentEffect. cbn [currentTime atTime setCurrentTime]. rewrite Hout.
  cbn [activeSegmentId atTime setCurrentTime set_videoRef].
  rewrite Hid, (truthyS_nonempty _ Hne).
  unfold exitPolicy. rewrite Hfind, Hreq, Hloop.
  cbn [userChoseInSegment atTime setCurrentTime set_videoRef loopCountBySeg].
  rewrite Hchose, Hc. cbn [negb andb plusOne].
  unfold reachedMax. rewrite Hmax, Hdef. cbn [isSome]. rewrite andb_true_r.
  reflexivity.
Qed.

Lemma v_currentTime_play (v : Video) : v_currentTime (play v) = v_currentTime v.
Proof. unfold play. now destruct (v_playRejects v). Qed.

(** X18. [S] asks for a choice, loops, and has [maxLoops] and a
    [defaultAction]; it is the segment that its id finds, the id is not
    empty, and its counter is a number [c] (as it is for every id that is
    not a name of [Object.prototype]). The player tracks [S] without a
    choice, and a tick reports a new time in no segment, no chained
    follow-up being due at that tick. Then the counter of [S] becomes
    [n = c + 1] and [segment.loop] is emitted with [n]. While [n] is below
    [maxLoops] the position is set by [seekTo(S.start)] and nothing else
    is emitted. Once [n >= maxLoops], the default action is given to
    [performAction], [segment.autoselect] follows, and there is no seek to
    [S.start]; when the default action is a seek with a numeric [start],
    the position is set by [seekTo] of that start. In every case the
    tracker is idle afterwards. *)
Theorem exit_without_choice (p : Props) (s : State) (v : Video) (S : Segment)
    (m c : Z) (a : Action) (t : Q) :
  videoRef s = Some v ->
  List.find (fun x => String.eqb (seg_id x) (seg_id S)) (segments (config p)) = Some S ->
  seg_id S <> "" ->
  seg_requireChoice S = true ->
  seg_loopOnNoChoice S = true ->
  seg_maxLoops S = Some m ->
  seg_defaultAction S = Some a ->
  activeSegmentId s = Some (seg_id S) ->
  userChoseInSegment s = false ->
  loopCount (loopCountBySeg s) (seg_id S) = Num c ->
  activeSegment (config p) t = None ->
  ~ (currentTime s == t)%Q ->
  chainedEffect (atTime t v s) (atTime t v s) = Ok (atTime t v s) ->
  let n := (c + 1)%Z in
  ((n < m)%Z ->
   exists s' v',
     tick p t s = Ok s'
     /\ loopCount (loopCountBySeg s') (seg_id S) = Num n
     /\ events s' = events s ++ [SegmentLoop (seg_id S) (Num n)]
     /\ videoRef s' = Some v'
     /\ v_currentTime v' = seekTarget v (seg_start S)
     /\ activeSegmentId s' = None)
  /\ ((m <= n)%Z ->
      loopCount (loopCountBySeg (counted S (Num n) t v s)) (seg_id S) = Num n
      /\ events (counted S (Num n) t v s) = events s ++ [SegmentLoop (seg_id S) (Num n)]
      /\ tick p t s =
         (do s3 <- performAction (Some a) (counted S (Num n) t v s);
          Ok (idle (onEvent (SegmentAutoselect (seg_id S)) s3))))
  /\ ((m <= n)%Z ->
      forall x, act_type a = "seek" -> act_start a = Some x ->
      exists s' v',
        tick p t s = Ok s'
        /\ loopCount (loopCountBySeg s') (seg_id S) = Num n
        /\ events s' = events s
                       ++ [SegmentLoop (seg_id S) (Num n); SegmentAutoselect (seg_id S)]
        /\ videoRef s' = Some v'
        /\ v_currentTime v' = seekTarget v x
        /\ activeSegmentId s' = None).
Proof.
  intros V Hfind Hne Hreq Hloop Hmax Hdef Hid Hchose Hc Hout Hnew Hchain n.
  pose proof (exit_tick_unfold p s v S m c a t V Hfind Hne Hreq Hloop Hmax Hdef
                Hid Hchose Hc Hout Hnew Hchain) as E.
  fold n in E.
  assert (Hn : loopCount (loopCountBySeg (counted S (Num n) t v s)) (seg_id S) = Num n).
  { cbn. rewrite loopCount_insert. now case_decide. }
  split; [| split].
  - intros Hlt. destruct (Z.leb_spec m n) as [? | _]; [lia |].
    do 2 eexists. split; [exact E |].
    split; [exact Hn |]. split; [reflexivity |]. split; [reflexivity |].
    split; [| reflexivity].
    cbn [v_currentTime]. rewrite v_currentTime_play. reflexivity.
  - intros Hge. destruct (Z.leb_spec m n) as [_ | ?]; [| lia].
    split; [exact Hn |]. split; [reflexivity |].
    rewrite E. destruct (performAction _ _); reflexivity.
  - intros Hge x Htype Hstart. destruct (Z.leb_spec m n) as [_ | ?]; [| lia].
    unfold performAction in E. rewrite Htype, Hstart in E.
    change (String.eqb "seek" "seek") with true in E. cbn [isSome andb] in E.
    do 2 eexists. split; [exact E |].
    split; [exact Hn |]. split; [| split; [reflexivity | split; [| reflexivity]]].
    + cbn. rewrite <- app_assoc. reflexivity.
    + rewrite v_currentTime_play. reflexivity.
Qed.

Lemma exit_without_choice_witness :
  exists s' v',
    tick scenarioC1 13.2 inC1 = Ok s'
    /\ loopCount (loopCountBySeg s') "c1" = Num 1
    /\ events s' = events inC1 ++ [SegmentLoop "c1" (Num 1)]
    /\ videoRef s' = Some v'
    /\ v_currentTime v' = seekTarget (mkVideo 11 None true false) 10
    /\ activeSegmentId s' = None.
Proof.
  destruct (exit_without_choice scenarioC1 inC1 (mkVideo 11 None true false) c1
              2%Z 0%Z (seekStart 14 None) 13.2%Q) as (Hloop & _ & _);
    [reflexivity | reflexivity | discriminate | reflexivity | reflexivity
    | reflexivity | reflexivity | reflexivity | reflexivity | reflexivity | reflexivity
    | intros H; vm_compute in H; discriminate | reflexivity |].
  apply Hloop. vm_compute. reflexivity.
Defined.

(** The scenario itself: the first exit loops to [10] with the count [1];
    the second exit counts [2 = maxLoops], so the default action fires and
    seeks to [14] with no seek back to [10]; the ticks that follow change
    nothing more. *)
Lemma maxLoops_scenario :
  exists s1 s2 s3 v1 v2,
    run scenarioC1 inC1 [mediaAt 13.2; TimeUpdate] = Ok s1
    /\ loopCount (loopCountBySeg s1) "c1" = Num 1
    /\ videoRef s1 = Some v1 /\ v_currentTime v1 = 10%Q
    /\ run scenarioC1 s1 [mediaAt 10.1; TimeUpdate; mediaAt 13.2; TimeUpdate] = Ok s2
    /\ loopCount (loopCountBySeg s2) "c1" = Num 2
    /\ videoRef s2 = Some v2 /\ v_currentTime v2 = 14%Q
    /\ List.map evt_type (events s2)
       = ["segment.enter"; "segment.loop"; "segment.enter"; "segment.loop";
          "segment.autoselect"]
    /\ run scenarioC1 s2 [mediaAt 14.2; TimeUpdate; mediaAt 14.4; TimeUpdate] = Ok s3
    /\ loopCountBySeg s3 = loopCountBySeg s2
    /\ events s3 = events s2.
Proof.
  do 5 eexists.
  split; [vm_compute; reflexivity |].
  split; [reflexivity |]. split; [reflexivity |]. split; [reflexivity |].
  split; [vm_compute; reflexivity |].
  split; [reflexivity |]. split; [reflexivity |]. split; [reflexivity |].
  split; [reflexivity |].
  split; [vm_compute; reflexivity |].
  split; reflexivity.
Qed.

(** C2, the code at the failing input. [c1] asks for a choice, loops, and
    has [maxLoops] and a default action; [c2] follows it at once. The
    player is in [c1] without a choice and playback runs on into [c2]: at
    [13.2] the interval of [c1] is left. The loop count of [c1] is not
    incremented, neither [segment.loop] nor [segment.autoselect] is
    emitted, and the position is not set back to the start of [c1]: the
    player has run past the choice. *)
Lemma exit_into_next_segment_does_not_loop :
  exists s' v',
    activeSegmentId inAdjacentC1 = Some "c1"
    /\ userChoseInSegment inAdjacentC1 = false
    /\ inSegment 13.2 c1 = false
    /\ tick adjacent 13.2 inAdjacentC1 = Ok s'
    /\ loopCount (loopCountBySeg inAdjacentC1) "c1" = Num 0
    /\ loopCount (loopCountBySeg s') "c1" = Num 0
    /\ List.map evt_type (events s')
       = List.map evt_type (events inAdjacentC1) ++ ["segment.enter"]
    /\ videoRef s' = Some v'
    /\ v_currentTime v' = 13.2%Q
    /\ activeSegmentId s' = Some "c2".
Proof.
  do 2 eexists.
  split; [reflexivity |]. split; [reflexivity |]. split; [reflexivity |].
  split; [vm_compute; reflexivity |].
  split; [reflexivity |]. split; [reflexivity |]. split; [reflexivity |].
  split; [reflexivity |]. split; reflexivity.
Qed.

(** * Further properties of the code *)

(** ** [clamp] and the timer bar *)

(** X1. [clamp(v, min, max)] is never below [min], also when the bounds
    are crossed (then it is [min]); for [min <= max] it stays within the
    bounds and is [v] when [v] already lies within them; and it is
    monotone in [v]. *)
Theorem clamp_range (v lo hi : Q) :
  (lo <= clamp v lo hi)%Q
  /\ ((lo <= hi)%Q ->
      (clamp v lo hi <= hi)%Q /\ ((lo <= v <= hi)%Q -> (clamp v lo hi == v)%Q))
  /\ ((hi < lo)%Q -> (clamp v lo hi == lo)%Q)
  /\ (forall w, (v <= w)%Q -> (clamp v lo hi <= clamp w lo hi)%Q).
Proof.
  unfold clamp.
  destruct (Q.max_spec lo (Qmin hi v)) as [[H1 E1] | [H1 E1]];
    destruct (Q.min_spec hi v) as [[H2 E2] | [H2 E2]];
    (split; [lra |]); (split; [intros; split; intros; lra |]);
    (split; [intros; lra |]);
    intros w Hw;
    destruct (Q.max_spec lo (Qmin hi w)) as [[H3 E3] | [H3 E3]];
    destruct (Q.min_spec hi w) as [[H4 E4] | [H4 E4]]; lra.
Qed.

Lemma clamp_range_witness :
  (clamp 120 0 100 <= 100)%Q /\ (clamp 7 5 3 == 5)%Q
  /\ (clamp 2 0 100 <= clamp 3 0 100)%Q.
Proof.
  destruct (clamp_range 120 0 100) as (_ & Hin & _ & _).
  destruct (clamp_range 7 5 3) as (_ & _ & Hcross & _).
  destruct (clamp_range 2 0 100) as (_ & _ & _ & Hmono).
  split; [apply Hin; lra |]. split; [apply Hcross; lra | apply Hmono; lra].
Defined.

Lemma timerBar_denominator (a : Segment) :
  (0 < Qmax 0.001 (seg_end a - seg_start a))%Q.
Proof.
  destruct (Q.max_spec 0.001 (seg_end a - seg_start a)) as [[H E] | [H E]]; lra.
Qed.

Lemma Qdiv_le_mono (x y d : Q) : (0 < d)%Q -> (x <= y)%Q -> (x / d <= y / d)%Q.
Proof.
  intros Hd Hxy. unfold Qdiv.
  apply Qmult_le_compat_r; [exact Hxy |].
  apply Qlt_le_weak, Qinv_lt_0_compat, Hd.
Qed.

(** X2. The width of the timer bar is always a percentage between [0] and
    [100], whatever the segment (also one with [start >= end]: the
    denominator is at least [0.001]) and whatever the time; it only grows
    with the time; and inside a segment that lasts at least [0.001]
    seconds it is the elapsed fraction of the segment, from [0] at [start]
    to [100] at [end]. *)
Theorem timerBarWidth_percentage (seg : option Segment) (t : Q) :
  (0 <= timerBarWidth seg t <= 100)%Q
  /\ (forall t', (t <= t')%Q -> (timerBarWidth seg t <= timerBarWidth seg t')%Q)
  /\ (forall a,
         seg = Some a ->
         (seg_start a + 0.001 <= seg_end a)%Q ->
         (seg_start a <= t <= seg_end a)%Q ->
         (timerBarWidth seg t
          == (t - seg_start a) / (seg_end a - seg_start a) * 100)%Q).
Proof.
  split; [| split].
  - destruct seg as [a |]; cbn [timerBarWidth]; [| lra].
    destruct (clamp_spec
                ((t - seg_start a) / Qmax 0.001 (seg_end a - seg_start a) * 100)
                0 100) as (H & _); lra.
  - intros t' Ht. destruct seg as [a |]; cbn [timerBarWidth]; [| lra].
    pose proof (timerBar_denominator a) as Hd.
    pose proof (Qdiv_le_mono (t - seg_start a) (t' - seg_start a) _ Hd) as Hm.
    assert (Hx : ((t - seg_start a) / Qmax 0.001 (seg_end a - seg_start a) * 100
                  <= (t' - seg_start a) / Qmax 0.001 (seg_end a - seg_start a) * 100)%Q)
      by (apply Qmult_le_compat_r; [apply Hm; lra | lra]).
    revert Hx.
    generalize ((t - seg_start a) / Qmax 0.001 (seg_end a - seg_start a) * 100)%Q.
    generalize ((t' - seg_start a) / Qmax 0.001 (seg_end a - seg_start a) * 100)%Q.
    intros y x Hxy. unfold clamp.
    destruct (Q.max_spec 0 (Qmin 100 x)) as [[H1 E1] | [H1 E1]];
      destruct (Q.min_spec 100 x) as [[H2 E2] | [H2 E2]];
      destruct (Q.max_spec 0 (Qmin 100 y)) as [[H3 E3] | [H3 E3]];
      destruct (Q.min_spec 100 y) as [[H4 E4] | [H4 E4]]; lra.
  - intros a -> Hlen Hin. cbn [timerBarWidth].
    assert (Ed : (Qmax 0.001 (seg_end a - seg_start a) == seg_end a - seg_start a)%Q)
      by (destruct (Q.max_spec 0.001 (seg_end a - seg_start a)) as [[H E] | [H E]]; lra).
    assert (Ef : ((t - seg_start a) / Qmax 0.001 (seg_end a - seg_start a)
                  == (t - seg_start a) / (seg_end a - seg_start a))%Q)
      by (rewrite Ed; reflexivity).
    assert (Hd : (0 < seg_end a - seg_start a)%Q) by lra.
    assert (H0 : (0 <= (t - seg_start a) / (seg_end a - seg_start a))%Q)
      by (apply Qle_shift_div_l; [exact Hd | lra]).
    assert (H1 : ((t - seg_start a) / (seg_end a - seg_start a) <= 1)%Q)
      by (apply Qle_shift_div_r; [exact Hd | lra]).
    destruct (clamp_spec
                ((t - seg_start a) / Qmax 0.001 (seg_end a - seg_start a) * 100) 0 100)
      as (_ & Hid & _); [lra |].
    rewrite Hid; lra.
Qed.

Lemma timerBarWidth_percentage_witness :
  (timerBarWidth (Some c1) 11.5 == 50)%Q
  /\ (timerBarWidth (Some c1) 11 <= timerBarWidth (Some c1) 12)%Q.
Proof.
  destruct (timerBarWidth_percentage (Some c1) 11.5) as (_ & _ & Hfrac).
  destruct (timerBarWidth_percentage (Some c1) 11) as (_ & Hmono & _).
  split.
  - rewrite (Hfrac c1); [reflexivity | reflexivity | | ]; cbn; lra.
  - apply Hmono. lra.
Defined.

(** ** The current source *)

(** X3. [currentSource] is always taken from the catalogue; it is missing
    only for an empty catalogue; when the catalogue has a source with the
    current id it is the first such source; and when it has none it is the
    first source of the catalogue. *)
Theorem currentSource_from_catalogue (p : Props) (id : string) :
  (forall src, currentSource p id = Some src -> In src (sources p))
  /\ (currentSource p id = None <-> sources p = [])
  /\ (forall src,
         In src (sources p) -> src_id src = id ->
         exists before first after,
           currentSource p id = Some first
           /\ src_id first = id
           /\ sources p = before ++ first :: after
           /\ Forall (fun x => src_id x <> id) before)
  /\ (Forall (fun x => src_id x <> id) (sources p) ->
      currentSource p id = List.hd_error (sources p)).
Proof.
  unfold currentSource.
  destruct (List.find _ (sources p)) as [found |] eqn:F.
  - pose proof F as F'. apply find_first in F' as (before & after & E & Hid & Hb).
    apply String.eqb_eq in Hid.
    split; [| split; [| split]].
    + intros src [= <-]. rewrite E. apply in_elt.
    + split; [discriminate |]. intros H. rewrite H in E.
      destruct before; discriminate.
    + intros src _ _. exists before, found, after. repeat split; auto.
      eapply List.Forall_impl; [| exact Hb]. intros x Hx.
      now apply String.eqb_neq.
    + intros H. rewrite E in H. apply Forall_app in H as [_ H].
      inversion H; subst. contradiction.
  - pose proof (proj1 (find_nothing _ _) F) as Hn.
    split; [| split; [| split]].
    + intros src H. destruct (sources p); [discriminate |].
      injection H as <-. now left.
    + destruct (sources p); split; try discriminate; reflexivity.
    + intros src Hin Hid. rewrite List.Forall_forall in Hn.
      specialize (Hn src Hin). apply String.eqb_neq in Hn. contradiction.
    + reflexivity.
Qed.

Lemma currentSource_from_catalogue_witness :
  currentSource twoSources "ghost" = Some (mkSource "main" "car.mp4")
  /\ exists first, currentSource twoSources "altA" = Some first /\ src_id first = "altA".
Proof.
  destruct (currentSource_from_catalogue twoSources "ghost") as (_ & _ & _ & Hfall).
  destruct (currentSource_from_catalogue twoSources "altA") as (_ & _ & Hfound & _).
  split.
  - rewrite Hfall; [reflexivity |]. repeat constructor; discriminate.
  - destruct (Hfound (mkSource "altA" "videoA.mp4"))
      as (before & first & after & E & Hid & _); [right; left; reflexivity | reflexivity |].
    exists first. auto.
Defined.

(** ** What one input can do to the counters and to the log *)

Lemma mounted_eq (p : Props) :
  InteractiveVideoPlayer p
  = Ok (match activeSegment (config p) 0 with
        | Some seg => entered seg (initialState p)
        | None => initialState p
        end).
Proof.
  unfold InteractiveVideoPlayer, runEffects, segmentEffect. cbn.
  destruct (activeSegment (config p) 0) as [seg |]; reflexivity.
Qed.

(** Closes [quiet s s'] when [s'] has the counters and the log of [s]. *)
Ltac quiet_same := split; [reflexivity | exists []; now rewrite app_nil_r].

Lemma quiet_refl (s : State) : quiet s s.
Proof. quiet_same. Qed.

Lemma quiet_trans (s1 s2 s3 : State) : quiet s1 s2 -> quiet s2 s3 -> quiet s1 s3.
Proof.
  intros (L1 & t1 & E1 & F1) (L2 & t2 & E2 & F2).
  split; [congruence |]. exists (t1 ++ t2).
  rewrite E2, E1, app_assoc. split; [reflexivity |]. now apply Forall_app.
Qed.

Lemma quiet_looped (p : Props) (s1 s2 s3 : State) :
  quiet s1 s2 -> looped p s2 s3 -> looped p s1 s3.
Proof.
  intros (L1 & t1 & E1 & F1) (seg & pre & tail & Hin & Hr & Hl & Hc & He & Fp & Ft).
  exists seg, (t1 ++ pre), tail. rewrite L1 in Hc, He.
  repeat split; try assumption.
  - rewrite He, E1. now rewrite <- !app_assoc.
  - now apply Forall_app.
Qed.

Lemma looped_quiet (p : Props) (s1 s2 s3 : State) :
  looped p s1 s2 -> quiet s2 s3 -> looped p s1 s3.
Proof.
  intros (seg & pre & tail & Hin & Hr & Hl & Hc & He & Fp & Ft) (L2 & t2 & E2 & F2).
  exists seg, pre, (tail ++ t2).
  repeat split; try assumption.
  - congruence.
  - rewrite E2, He. rewrite <- !app_assoc. reflexivity.
  - now apply Forall_app.
Qed.

Lemma seekTo_quiet (seconds : option Q) (s s' : State) :
  seekTo seconds s = Ok s' -> quiet s s'.
Proof.
  intros H. apply seekTo_sameChoiceState in H as ((_ & _ & _ & Hl & _) & He).
  split; [exact Hl |]. exists []. now rewrite app_nil_r.
Qed.

Lemma performAction_events (a : option Action) (s s' : State) :
  performAction a s = Ok s' ->
  events s' = events s
  \/ exists sourceId startAt, events s' = events s ++ [SourceSwitch sourceId startAt].
Proof.
  unfold performAction. intros H.
  destruct a as [a |]; [| injection H as <-; now left].
  destruct (_ && _).
  - left. apply seekTo_sameChoiceState in H. tauto.
  - destruct (String.eqb _ _); [| injection H as <-; now left].
    destruct (truthyS _) as [sid |]; injection H as <-; [| now left].
    right. eexists _, _. reflexivity.
Qed.

Lemma performAction_quiet (a : option Action) (s s' : State) :
  performAction a s = Ok s' -> quiet s s'.
Proof.
  intros H. split.
  - apply performAction_sameChoiceState in H. unfold sameChoiceState in H. tauto.
  - apply performAction_events in H as [E | (sid & st & E)].
    + exists []. now rewrite app_nil_r.
    + exists [SourceSwitch sid st]. split; [exact E |]. repeat constructor.
Qed.

Lemma chainedEffect_quiet (r s s' : State) : chainedEffect r s = Ok s' -> quiet s s'.
Proof.
  intros H. apply chainedEffect_frame in H as (_ & _ & Hl & _ & _ & He & _).
  split; [exact Hl |]. exists []. now rewrite app_nil_r.
Qed.

Lemma exitPolicy_quiet_or_looped (p : Props) (r s s' : State) (sid : string) :
  exitPolicy p r sid s = Ok s' ->
  loopCountBySeg s = loopCountBySeg r ->
  quiet s s' \/ looped p s s'.
Proof.
  unfold exitPolicy. intros H E.
  destruct (List.find _ _) as [seg |] eqn:F;
    [| injection H as <-; left; apply quiet_refl].
  apply find_some in F as [Hin _].
  destruct (seg_requireChoice seg) eqn:Hr;
    [| injection H as <-; left; apply quiet_refl].
  destruct (seg_loopOnNoChoice seg) eqn:Hl;
    [| injection H as <-; left; apply quiet_refl].
  destruct (userChoseInSegment r); cbn [negb andb] in H;
    [injection H as <-; left; apply quiet_refl |].
  right. rewrite <- E in H.
  set (n := plusOne (loopCount (loopCountBySeg s) (seg_id seg))) in *.
  set (s2 := onEvent _ _) in H.
  assert (L2 : looped p s s2).
  { exists seg, [], []. repeat split; auto. }
  destruct (_ && _).
  - destruct (performAction _ s2) as [s3 |] eqn:P; [| discriminate].
    cbn [bind] in H. injection H as <-.
    apply performAction_quiet in P.
    eapply looped_quiet; [eapply looped_quiet; [exact L2 | exact P] |].
    split; [reflexivity |]. exists [SegmentAutoselect (seg_id seg)].
    split; [reflexivity |]. repeat constructor.
  - apply seekTo_quiet in H. eapply looped_quiet; eassumption.
Qed.

Lemma segmentEffect_quiet_or_looped (p : Props) (r s s' : State) :
  segmentEffect p r s = Ok s' ->
  loopCountBySeg s = loopCountBySeg r ->
  quiet s s' \/ looped p s s'.
Proof.
  unfold segmentEffect. intros H E.
  destruct (activeSegment _ _) as [seg |].
  - left. destruct (differsFrom _ _); injection H as <-; [| apply quiet_refl].
    split; [reflexivity |]. exists [SegmentEnter (seg_id seg)].
    split; [reflexivity |]. repeat constructor.
  - destruct (truthyS _) as [sid |]; [| injection H as <-; left; apply quiet_refl].
    destruct (exitPolicy p r sid s) as [s1 |] eqn:X; [| discriminate].
    cbn [bind] in H. injection H as <-.
    apply exitPolicy_quiet_or_looped in X as [Q | L]; [| | exact E].
    + left. eapply quiet_trans; [exact Q |]. quiet_same.
    + right. eapply looped_quiet; [exact L |]. quiet_same.
Qed.

Lemma runEffects_quiet_or_looped (p : Props) (prev r s' : State) :
  runEffects p prev r = Ok s' -> quiet r s' \/ looped p r s'.
Proof.
  unfold runEffects. intros H.
  destruct (if _ || _ then chainedEffect r r else Ok r) as [s1 |] eqn:C;
    [| discriminate]. cbn [bind] in H.
  assert (Q1 : quiet r s1).
  { destruct (_ || _); [now apply chainedEffect_quiet in C |].
    injection C as <-. apply quiet_refl. }
  destruct (timeChanged prev r).
  - apply segmentEffect_quiet_or_looped in H as [Q | L]; [| | apply Q1].
    + left. eapply quiet_trans; eassumption.
    + right. eapply quiet_looped; eassumption.
  - injection H as <-. now left.
Qed.

Lemma onHotspotClick_quiet (h : Hotspot) (seg : option Segment) (s s' : State) :
  onHotspotClick h seg s = Ok s' -> quiet s s'.
Proof.
  unfold onHotspotClick. intros H.
  destruct (performAction _ _) as [s4 |] eqn:P; [| discriminate].
  cbn [bind] in H. injection H as <-.
  apply performAction_quiet in P.
  eapply quiet_trans; [| eapply quiet_trans; [exact P | quiet_same]].
  split; [reflexivity |]. eexists [_]. split; [reflexivity |]. repeat constructor.
Qed.

Lemma handle_quiet (p : Props) (i : Input) (s s' : State) :
  handle p i s = Ok s' -> quiet s s'.
Proof.
  destruct i; cbn [handle]; unfold choose, onTime, switchSourceTimeout; intros H;
    repeat case_match; simplify_eq;
    try quiet_same; try (eapply onHotspotClick_quiet; eassumption).
Qed.

Lemma step_quiet_or_looped (p : Props) (s s' : State) (i : Input) :
  step p s i = Ok s' -> quiet s s' \/ looped p s s'.
Proof.
  unfold step. intros H.
  destruct (handle p i s) as [s1 |] eqn:Hh; [| discriminate]. cbn [bind] in H.
  rewrite commit_one_round in H. apply handle_quiet in Hh.
  apply runEffects_quiet_or_looped in H as [Q | L].
  - left. eapply quiet_trans; eassumption.
  - right. eapply quiet_looped; eassumption.
Qed.

Lemma loopsLogged_app (id : string) (a b : list Event) :
  loopsLogged id (a ++ b) = (loopsLogged id a + loopsLogged id b)%nat.
Proof.
  unfold loopsLogged. now rewrite List.filter_app, length_app.
Qed.

Lemma loopsLogged_notLoop (id : string) (tail : list Event) :
  Forall notLoop tail -> loopsLogged id tail = 0%nat.
Proof.
  unfold loopsLogged. induction 1 as [| e tail He _ IH]; [reflexivity |].
  cbn [List.filter]. destruct e; cbn in He |- *; try exact IH. contradiction.
Qed.

Lemma plusOne_countOf (id : string) (n : nat) :
  plusOne (countOf id n) = countOf id (S n).
Proof.
  unfold countOf. destruct (isPrototypeMember id).
  - now destruct n.
  - cbn [plusOne]. f_equal. lia.
Qed.

Lemma quiet_logged (s s' : State) : quiet s s' -> logged s -> logged s'.
Proof.
  intros (L & tail & E & F) H id.
  rewrite L, E, loopsLogged_app, (loopsLogged_notLoop id tail F), H.
  now rewrite Nat.add_0_r.
Qed.

Lemma looped_logged (p : Props) (s s' : State) : looped p s s' -> logged s -> logged s'.
Proof.
  intros (seg & pre & tail & _ & _ & _ & Hc & He & Fp & Ft) H id.
  rewrite Hc, He, loopCount_insert, !loopsLogged_app.
  change (SegmentLoop ?a ?b :: tail) with ([SegmentLoop a b] ++ tail).
  rewrite loopsLogged_app, (loopsLogged_notLoop id pre Fp), (loopsLogged_notLoop id tail Ft).
  unfold loopsLogged at 2. cbn [List.filter isLoopOf].
  case_decide as D.
  - subst id. rewrite String.eqb_refl. cbn [length]. rewrite H, plusOne_countOf.
    f_equal. lia.
  - apply String.eqb_neq in D. rewrite D. cbn [length]. rewrite H. f_equal. lia.
Qed.

Lemma run_invariant (p : Props) (I : State -> Prop) :
  (forall s s' i, step p s i = Ok s' -> I s -> I s') ->
  forall inputs s s', run p s inputs = Ok s' -> I s -> I s'.
Proof.
  intros Hstep. induction inputs as [| i rest IH]; intros s s' H Hs; cbn [run] in H.
  - now injection H as <-.
  - destruct (step p s i) as [s1 |] eqn:S1; [| discriminate]. cbn [bind] in H.
    eapply IH; [exact H |]. eapply Hstep; eassumption.
Qed.

Lemma mounted_cases (p : Props) :
  (mounted p = initialState p /\ activeSegment (config p) 0 = None)
  \/ exists seg, mounted p = entered seg (initialState p)
                 /\ activeSegment (config p) 0 = Some seg.
Proof.
  unfold mounted. rewrite mounted_eq.
  destruct (activeSegment (config p) 0) as [seg |]; [right; eauto | now left].
Qed.

(** ** Loop counters and the event log *)

(** X6. Along every session since the mount, the loop counter of every
    segment id is the one that the [segment.loop] events of that id
    leave: for an id that is not a name of [Object.prototype] the counter
    is the number of those events (the state and the analytics never
    disagree); for a name of [Object.prototype] it is the inherited member
    before the first loop and afterwards its text followed by as many
    characters ['1'] as there were loops. *)
Theorem loopCount_is_logged (p : Props) (inputs : list Input) (s : State)
    (id : string) :
  run p (mounted p) inputs = Ok s ->
  loopCount (loopCountBySeg s) id = countOf id (loopsLogged id (events s))
  /\ (isPrototypeMember id = false ->
      loopCount (loopCountBySeg s) id = Num (Z.of_nat (loopsLogged id (events s)))).
Proof.
  intros H.
  assert (L : logged s).
  { eapply (run_invariant p logged); [| exact H |].
    - intros s1 s2 i S1 L1. apply step_quiet_or_looped in S1 as [Q | L].
      + eapply quiet_logged; eassumption.
      + eapply looped_logged; eassumption.
    - destruct (mounted_cases p) as [[-> _] | (seg & -> & _)]; intros x;
        cbn; unfold loopCount, countOf; rewrite lookup_empty;
        now destruct (isPrototypeMember x). }
  split; [apply L |].
  intros Hm. rewrite (L id). unfold countOf. now rewrite Hm.
Qed.

Lemma loopCount_is_logged_witness :
  exists s,
    run scenarioC1 (mounted scenarioC1)
      [mediaAt 11; TimeUpdate; mediaAt 13.2; TimeUpdate; mediaAt 10.1; TimeUpdate;
       mediaAt 13.2; TimeUpdate] = Ok s
    /\ loopCount (loopCountBySeg s) "c1" = Num (Z.of_nat (loopsLogged "c1" (events s)))
    /\ loopsLogged "c1" (events s) = 2%nat.
Proof.
  eexists. split; [vm_compute; reflexivity |].
  split; [| reflexivity].
  eapply (loopCount_is_logged scenarioC1
            [mediaAt 11; TimeUpdate; mediaAt 13.2; TimeUpdate; mediaAt 10.1; TimeUpdate;
             mediaAt 13.2; TimeUpdate]);
    [vm_compute; reflexivity | reflexivity].
Defined.

Lemma quiet_countersOfLoops (p : Props) (s s' : State) :
  quiet s s' -> countersOfLoops p s -> countersOfLoops p s'.
Proof.
  intros (L & _) H id x. rewrite L. apply H.
Qed.

Lemma looped_countersOfLoops (p : Props) (s s' : State) :
  looped p s s' -> countersOfLoops p s -> countersOfLoops p s'.
Proof.
  intros (seg & pre & tail & Hin & Hr & Hl & Hc & _) H id x.
  rewrite Hc, lookup_insert. case_decide as D; [| apply H].
  subst id. intros [= <-]. split; [exists seg; auto |].
  unfold loopCount.
  destruct (loopCountBySeg s !! seg_id seg) as [y |] eqn:Y.
  - destruct (H _ _ Y) as (_ & Hn & Hi). split.
    + intros n E. destruct y as [k | |]; cbn in E; try discriminate.
      injection E as <-. specialize (Hn k eq_refl). lia.
    + intros m E. destruct y; discriminate.
  - destruct (isPrototypeMember (seg_id seg)); cbn; split; intros ? E;
      try discriminate. injection E as <-. lia.
Qed.

(** X7. Along every session since the mount a counter is stored only for
    the id of a configured segment that has both [requireChoice] and
    [loopOnNoChoice] (segments that do not ask for a choice, and ids that
    are not configured, are never counted), and a stored counter that is a
    number is at least [1]. *)
Theorem only_looping_segments_are_counted (p : Props) (inputs : list Input)
    (s : State) (id : string) (x : JsValue) :
  run p (mounted p) inputs = Ok s ->
  loopCountBySeg s !! id = Some x ->
  (exists seg,
      In seg (segments (config p)) /\ seg_id seg = id
      /\ seg_requireChoice seg = true /\ seg_loopOnNoChoice seg = true)
  /\ (forall n, x = Num n -> (1 <= n)%Z).
Proof.
  intros H Hx.
  assert (C : countersOfLoops p s).
  { eapply (run_invariant p (countersOfLoops p)); [| exact H |].
    - intros s1 s2 i S1 L1. apply step_quiet_or_looped in S1 as [Q | L].
      + eapply quiet_countersOfLoops; eassumption.
      + eapply looped_countersOfLoops; eassumption.
    - destruct (mounted_cases p) as [[-> _] | (seg & -> & _)]; intros k y; cbn;
        rewrite lookup_empty; discriminate. }
  destruct (C id x Hx) as (Hs & Hn & _). auto.
Qed.

Lemma only_looping_segments_are_counted_witness :
  exists s seg,
    run overlapping (mounted overlapping)
      [mediaAt 11; TimeUpdate; mediaAt 13.5; TimeUpdate; mediaAt 21; TimeUpdate;
       mediaAt 11; TimeUpdate; mediaAt 20.5; TimeUpdate] = Ok s
    /\ loopCountBySeg s !! "b" = None
    /\ loopCountBySeg s !! "a" = Some (Num 1)
    /\ In seg (segments (config overlapping)) /\ seg_id seg = "a"
    /\ seg_requireChoice seg = true.
Proof.
  eexists.
  destruct (only_looping_segments_are_counted overlapping
              [mediaAt 11; TimeUpdate; mediaAt 13.5; TimeUpdate; mediaAt 21; TimeUpdate;
               mediaAt 11; TimeUpdate; mediaAt 20.5; TimeUpdate]
              (match run overlapping (mounted overlapping)
                       [mediaAt 11; TimeUpdate; mediaAt 13.5; TimeUpdate;
                        mediaAt 21; TimeUpdate; mediaAt 11; TimeUpdate;
                        mediaAt 20.5; TimeUpdate] with
               | Ok s => s
               | Throw _ => mounted overlapping
               end) "a" (Num 1))
    as ((seg & Hin & Hid & Hr & _) & _);
    [vm_compute; reflexivity | vm_compute; reflexivity |].
  exists seg.
  split; [vm_compute; reflexivity |].
  split; [vm_compute; reflexivity |]. split; [vm_compute; reflexivity |].
  auto.
Defined.

(** ** Invariants of the tracker and of the chained watch *)

Lemma timeChanged_false (prev r : State) :
  timeChanged prev r = false -> (currentTime prev == currentTime r)%Q.
Proof.
  unfold timeChanged. rewrite negb_false_iff. apply Qeq_bool_iff.
Qed.

Lemma onHotspotClick_frame (h : Hotspot) (seg : option Segment) (s s' : State) :
  onHotspotClick h seg s = Ok s' ->
  currentTime s' = currentTime s
  /\ activeSegmentId s' = activeSegmentId s
  /\ loopCountBySeg s' = loopCountBySeg s
  /\ userChoseInSegment s' = true
  /\ showOverlays s' = false
  /\ activeHotspot s' = Some h.
Proof.
  unfold onHotspotClick. intros H.
  destruct (performAction _ _) as [s4 |] eqn:P; [| discriminate].
  cbn [bind] in H. injection H as <-.
  apply performAction_sameChoiceState in P as (Ht & Ha & _ & Hl & Hu & Ho).
  cbn in *. repeat split; assumption.
Qed.

(** Every handler but [onTime] leaves the clock of the state alone, and no
    handler touches the tracker. *)
Lemma handle_frame (p : Props) (i : Input) (s s' : State) :
  handle p i s = Ok s' ->
  activeSegmentId s' = activeSegmentId s
  /\ loopCountBySeg s' = loopCountBySeg s
  /\ (i <> TimeUpdate -> currentTime s' = currentTime s)
  /\ (isChoiceInput i = false ->
      activeHotspot s' = activeHotspot s
      /\ userChoseInSegment s' = userChoseInSegment s
      /\ showOverlays s' = showOverlays s
      /\ events s' = events s).
Proof.
  destruct i; cbn [handle isChoiceInput]; unfold choose, onTime, switchSourceTimeout;
    intros H; repeat case_match; simplify_eq; cbn;
    try (repeat split; (congruence || tauto));
    match goal with
    | Hc : onHotspotClick _ _ _ = Ok _ |- _ =>
        apply onHotspotClick_frame in Hc as (? & ? & ? & _); repeat split; auto; discriminate
    end.
Qed.

Lemma tracked_is_truthy (p : Props) (s : State) :
  idsNonEmpty p -> tracking p s ->
  truthyS (activeSegmentId s) = None -> activeSegmentId s = None.
Proof.
  unfold tracking. intros Hids -> H.
  destruct (activeSegment _ _) as [seg |] eqn:A; [| reflexivity].
  apply find_some in A as [Hin _].
  unfold idsNonEmpty in Hids. rewrite List.Forall_forall in Hids.
  cbn [option_map] in H. rewrite (truthyS_nonempty _ (Hids seg Hin)) in H. discriminate.
Qed.

Lemma differsFrom_false (x : option string) (id : string) :
  differsFrom x id = false -> x = Some id.
Proof.
  destruct x as [y |]; cbn; [| discriminate].
  rewrite negb_false_iff. intros H. apply String.eqb_eq in H. now subst.
Qed.

Lemma runEffects_tracking (p : Props) (prev r s' : State) :
  idsNonEmpty p ->
  tracking p prev ->
  activeSegmentId r = activeSegmentId prev ->
  runEffects p prev r = Ok s' ->
  tracking p s'.
Proof.
  intros Hids Hprev Hsame H. unfold runEffects in H.
  destruct (if _ || _ then chainedEffect r r else Ok r) as [s1 |] eqn:C;
    [| discriminate]. cbn [bind] in H.
  assert (F1 : currentTime s1 = currentTime r
               /\ activeSegmentId s1 = activeSegmentId r
               /\ loopCountBySeg s1 = loopCountBySeg r).
  { destruct (_ || _); [apply chainedEffect_frame in C; tauto |].
    injection C as <-. auto. }
  destruct F1 as (Ht & Ha & Hl).
  destruct (timeChanged prev r) eqn:T.
  - unfold segmentEffect in H. unfold tracking.
    destruct (activeSegment (config p) (currentTime r)) as [seg |] eqn:A.
    + destruct (differsFrom _ _) eqn:D; injection H as <-.
      * cbn. now rewrite Ht, A.
      * apply differsFrom_false in D. rewrite Ht, A, Ha. exact D.
    + destruct (truthyS (activeSegmentId r)) as [sid |] eqn:Y.
      * destruct (exitPolicy p r sid s1) as [s2 |] eqn:X; [| discriminate].
        cbn [bind] in H. injection H as <-.
        apply exitPolicy_frame in X as (Ht2 & _); [| exact Hl].
        cbn. now rewrite Ht2, Ht, A.
      * injection H as <-. rewrite Ht, A, Ha. cbn.
        rewrite Hsame in Y |- *. now apply (tracked_is_truthy p prev).
  - injection H as <-. apply timeChanged_false in T. unfold tracking.
    rewrite Ht, Ha, Hsame, Hprev.
    now rewrite (activeSegment_Qeq (config p) _ _ T).
Qed.

(** X4. When no segment has an empty id, the tracker follows the resolver
    along every session: after the mount and after every input,
    [activeSegmentId] is the id of the segment that [activeSegment]
    returns for the [currentTime] of the state, and it is [null] exactly
    when that time lies in no segment. *)
Theorem tracker_follows_resolver (p : Props) (inputs : list Input) (s : State) :
  idsNonEmpty p ->
  run p (mounted p) inputs = Ok s ->
  activeSegmentId s = option_map seg_id (activeSegment (config p) (currentTime s)).
Proof.
  intros Hids H. change (tracking p s).
  eapply (run_invariant p (tracking p)); [| exact H |].
  - intros s1 s2 i S1 T1. unfold step in S1.
    destruct (handle p i s1) as [h |] eqn:Hh; [| discriminate]. cbn [bind] in S1.
    rewrite commit_one_round in S1.
    apply handle_frame in Hh as (Ha & _).
    eapply runEffects_tracking; eassumption.
  - destruct (mounted_cases p) as [[-> A] | (seg & -> & A)]; unfold tracking; cbn;
      now rewrite A.
Qed.

Lemma tracker_follows_resolver_witness :
  exists s,
    run App (mounted App) [mediaAt 11; TimeUpdate; Click 0; mediaAt 70.5; TimeUpdate]
    = Ok s
    /\ activeSegmentId s = option_map seg_id (activeSegment (config App) (currentTime s))
    /\ activeSegmentId s = Some "choice-2".
Proof.
  eexists. split; [vm_compute; reflexivity |].
  split; [| reflexivity].
  eapply (tracker_follows_resolver App
            [mediaAt 11; TimeUpdate; Click 0; mediaAt 70.5; TimeUpdate]).
  - repeat constructor; discriminate.
  - vm_compute. reflexivity.
Defined.

Lemma Qgt_bool_Qeq (x x' y : Q) : (x == x')%Q -> Qgt_bool x' y = Qgt_bool x y.
Proof.
  intros E. destruct (Qgt_bool x y) eqn:G.
  - apply Qgt_bool_iff. apply Qgt_bool_iff in G. lra.
  - destruct (Qgt_bool x' y) eqn:G'; [| reflexivity].
    apply Qgt_bool_iff in G'.
    assert (Qgt_bool x y = true) by (apply Qgt_bool_iff; lra). congruence.
Qed.

Lemma watchDue_ext (s s' : State) :
  activeHotspot s' = activeHotspot s ->
  (currentTime s == currentTime s')%Q ->
  watchDue s' = watchDue s.
Proof.
  intros Hh Ht. unfold watchDue. rewrite Hh.
  destruct (activeHotspot s) as [h |]; [| reflexivity].
  destruct (truthyQ _) as [e |]; [| reflexivity].
  now apply Qgt_bool_Qeq.
Qed.

Lemma chainedEffect_settles (r s' : State) :
  chainedEffect r r = Ok s' -> watchDue s' = false.
Proof.
  unfold chainedEffect, watchDue. intros H.
  destruct (activeHotspot r) as [h |] eqn:A; [| injection H as <-; now rewrite A].
  destruct (truthyQ (hotspotEnd h)) as [e |] eqn:E;
    [| injection H as <-; now rewrite A, E].
  destruct (Qgt_bool _ _) eqn:G; [| injection H as <-; now rewrite A, E].
  apply seekTo_sameChoiceState in H as ((_ & _ & Hh & _) & _).
  now rewrite Hh.
Qed.

Lemma runEffects_settles (p : Props) (prev r s' : State) :
  watchDue prev = false -> runEffects p prev r = Ok s' -> watchDue s' = false.
Proof.
  intros Hprev H. unfold runEffects in H.
  destruct (timeChanged prev r) eqn:T; cbn [orb] in H.
  - destruct (chainedEffect r r) as [s1 |] eqn:C; [| discriminate]. cbn [bind] in H.
    pose proof (chainedEffect_settles _ _ C) as W.
    apply chainedEffect_frame in C as (_ & _ & Hl & _).
    apply segmentEffect_frame in H as (Ht & Hh & _); [| exact Hl].
    rewrite <- W. apply watchDue_ext; [exact Hh | rewrite Ht; reflexivity].
  - destruct (hotspotChanged prev r) eqn:Hc.
    + destruct (chainedEffect r r) as [s1 |] eqn:C; [| discriminate]. cbn [bind] in H.
      injection H as <-. eapply chainedEffect_settles; eassumption.
    + cbn [bind] in H. injection H as <-. rewrite <- Hprev.
      apply timeChanged_false in T. apply watchDue_ext; [| exact T].
      unfold hotspotChanged in Hc. rewrite negb_false_iff in Hc.
      apply bool_decide_eq_true_1 in Hc. congruence.
Qed.

(** X5. A pending chained watch is never overdue when the player is at
    rest: after the mount and after every input of a session, either no
    hotspot is pending, or its action has no truthy [end], or the
    [currentTime] of the state is at most [end + 0.05] as the code
    computes that sum, in doubles ([watchBoundary]). *)
Theorem pending_watch_is_not_overdue (p : Props) (inputs : list Input) (s : State) :
  run p (mounted p) inputs = Ok s ->
  forall h e,
    activeHotspot s = Some h ->
    truthyQ (hotspotEnd h) = Some e ->
    (currentTime s <= watchBoundary e)%Q.
Proof.
  intros H.
  assert (W : watchDue s = false).
  { eapply (run_invariant p (fun x => watchDue x = false)); [| exact H |].
    - intros s1 s2 i S1 W1. unfold step in S1.
      destruct (handle p i s1) as [h |] eqn:Hh; [| discriminate]. cbn [bind] in S1.
      rewrite commit_one_round in S1. eapply runEffects_settles; eassumption.
    - destruct (mounted_cases p) as [[-> _] | (seg & -> & _)]; reflexivity. }
  intros h e Hh He. unfold watchDue in W. rewrite Hh, He in W.
  destruct (Qlt_le_dec (watchBoundary e) (currentTime s)) as [L | L]; [| exact L].
  apply Qgt_bool_iff in L. congruence.
Qed.

Lemma pending_watch_is_not_overdue_witness :
  exists s h,
    run App (mounted App) [mediaAt 10; TimeUpdate; Click 0; mediaAt 15; TimeUpdate] = Ok s
    /\ activeHotspot s = Some h
    /\ (currentTime s <= watchBoundary 16)%Q.
Proof.
  do 2 eexists. split; [vm_compute; reflexivity |]. split; [reflexivity |].
  eapply (pending_watch_is_not_overdue App
            [mediaAt 10; TimeUpdate; Click 0; mediaAt 15; TimeUpdate]);
    [vm_compute; reflexivity | reflexivity | reflexivity].
Defined.

(** ** The hotspot input surface *)

Lemma runEffects_same (p : Props) (s : State) : runEffects p s s = Ok s.
Proof.
  unfold runEffects, timeChanged, hotspotChanged.
  rewrite Qeq_bool_refl, bool_decide_eq_true_2 by reflexivity. reflexivity.
Qed.

Lemma choose_rendered (p : Props) (idx : nat) (s : State) :
  choose p idx s =
  match List.nth_error (renderedHotspots p s) idx with
  | Some h => onHotspotClick h (activeSegment (config p) (currentTime s)) s
  | None => Ok s
  end.
Proof.
  unfold choose, renderedHotspots.
  destruct (activeSegment _ _) as [seg |]; [| now destruct idx].
  destruct (showOverlays s); [reflexivity | now destruct idx].
Qed.

Lemma renderedHotspots_visible (p : Props) (s : State) (h : Hotspot) :
  In h (renderedHotspots p s) ->
  exists seg,
    activeSegment (config p) (currentTime s) = Some seg
    /\ showOverlays s = true
    /\ In h (seg_hotspots seg)
    /\ hs_visible h <> Some false.
Proof.
  unfold renderedHotspots, visibleHotspots.
  destruct (activeSegment _ _) as [seg |]; [| contradiction].
  destruct (showOverlays s); [| contradiction].
  intros H. apply List.filter_In in H as [Hin Hv].
  exists seg. repeat split; auto.
  intros E. rewrite E in Hv. discriminate.
Qed.

(** What the render after a handler can do when the handler left the clock
    alone: at most the chained watch runs. *)
Lemma runEffects_same_time (p : Props) (prev r s' : State) :
  currentTime r = currentTime prev ->
  runEffects p prev r = Ok s' ->
  currentTime s' = currentTime r
  /\ activeSegmentId s' = activeSegmentId r
  /\ loopCountBySeg s' = loopCountBySeg r
  /\ userChoseInSegment s' = userChoseInSegment r
  /\ showOverlays s' = showOverlays r
  /\ events s' = events r.
Proof.
  intros Ht H. unfold runEffects, timeChanged in H.
  rewrite Ht, Qeq_bool_refl in H. cbn [negb orb] in H.
  destruct (hotspotChanged prev r).
  - destruct (chainedEffect r r) as [s1 |] eqn:C; [| discriminate].
    cbn [bind] in H. injection H as <-.
    apply chainedEffect_frame in C. tauto.
  - injection H as <-. repeat split.
Qed.

(** A hotspot activation, as the handler leaves it after the render that
    follows. *)
Lemma activation_step (p : Props) (s s1 s' : State) (h : Hotspot) (seg : Segment) :
  onHotspotClick h (Some seg) s = Ok s1 ->
  runEffects p s s1 = Ok s' ->
  userChoseInSegment s' = true
  /\ showOverlays s' = false
  /\ exists tail,
       events s' = events s ++ HotspotClick (hs_id h) (Some (seg_id seg)) :: tail
       /\ Forall (fun e => evt_type e = "source.switch") tail.
Proof.
  intros Hclick H.
  pose proof (onHotspotClick_frame _ _ _ _ Hclick) as (Ht & _ & _ & Hu & Hs & _).
  apply runEffects_same_time in H as (_ & _ & _ & Hu' & Hs' & He'); [| exact Ht].
  unfold onHotspotClick in Hclick.
  destruct (performAction _ _) as [s4 |] eqn:P; [| discriminate].
  cbn [bind] in Hclick. injection Hclick as <-.
  apply performAction_events in P. cbn [events onEvent setShowOverlays
    setUserChoseInSegment option_map] in P. cbn [events setActiveHotspot] in He'.
  split; [congruence |]. split; [congruence |].
  destruct P as [E | (sid & st & E)].
  - exists []. rewrite He', E. split; [reflexivity | constructor].
  - exists [SourceSwitch sid st]. rewrite He', E, <- app_assoc.
    split; [reflexivity | repeat constructor].
Qed.

(** X8. A key can only activate a hotspot that is rendered: [handleKey]
    goes on only when the resolver returns a segment for the time of the
    state and the overlays are shown, and the key of the digit [k]
    activates the hotspot at position [k - 1] among the hotspots of that
    segment whose [visible] is not [false], so a hidden hotspot is never
    activated and takes no digit. When a key activates a hotspot, the
    choice is recorded, the overlays are hidden, and [hotspot.click] is
    emitted with the ids of the hotspot and of the segment (followed at
    most by [source.switch]); when it does not, the state is left exactly
    as it was. *)
Theorem keys_activate_rendered_hotspots (p : Props) (s s' : State) (key : ascii) :
  step p s (KeyDown key) = Ok s' ->
  s' = s
  \/ exists seg h idx tail,
       keyIndex key = Some idx
       /\ activeSegment (config p) (currentTime s) = Some seg
       /\ showOverlays s = true
       /\ List.nth_error (visibleHotspots seg) idx = Some h
       /\ In h (seg_hotspots seg)
       /\ hs_visible h <> Some false
       /\ userChoseInSegment s' = true
       /\ showOverlays s' = false
       /\ events s' = events s ++ HotspotClick (hs_id h) (Some (seg_id seg)) :: tail
       /\ Forall (fun e => evt_type e = "source.switch") tail.
Proof.
  intros H. unfold step in H. cbn [handle] in H.
  destruct (keyIndex key) as [idx |] eqn:K;
    [| cbn [bind] in H; rewrite commit_one_round, runEffects_same in H;
       injection H as <-; now left].
  unfold choose in H.
  destruct (activeSegment (config p) (currentTime s)) as [seg |] eqn:A;
    [| cbn [bind] in H; rewrite commit_one_round, runEffects_same in H;
       injection H as <-; now left].
  destruct (showOverlays s) eqn:O;
    [| cbn [bind] in H; rewrite commit_one_round, runEffects_same in H;
       injection H as <-; now left].
  destruct (List.nth_error (visibleHotspots seg) idx) as [h |] eqn:N;
    [| cbn [bind] in H; rewrite commit_one_round, runEffects_same in H;
       injection H as <-; now left].
  destruct (onHotspotClick h (Some seg) s) as [s1 |] eqn:C; [| discriminate].
  cbn [bind] in H. rewrite commit_one_round in H.
  destruct (activation_step p s s1 s' h seg C H) as (Hu & Hs & tail & He & Ft).
  right. exists seg, h, idx, tail.
  pose proof (nth_error_In _ _ N) as Hin.
  unfold visibleHotspots in Hin. apply List.filter_In in Hin as [Hin Hv].
  repeat split; auto.
  intros E. rewrite E in Hv. discriminate.
Qed.

Lemma keys_activate_rendered_hotspots_witness :
  exists s s',
    run hiddenHotspot (mounted hiddenHotspot) [mediaAt 11; TimeUpdate] = Ok s
    /\ step hiddenHotspot s (KeyDown "1") = Ok s'
    /\ (s' = s
        \/ exists seg h idx tail,
             keyIndex "1" = Some idx
             /\ activeSegment (config hiddenHotspot) (currentTime s) = Some seg
             /\ showOverlays s = true
             /\ List.nth_error (visibleHotspots seg) idx = Some h
             /\ In h (seg_hotspots seg)
             /\ hs_visible h <> Some false
             /\ userChoseInSegment s' = true
             /\ showOverlays s' = false
             /\ events s' = events s ++ HotspotClick (hs_id h) (Some (seg_id seg)) :: tail
             /\ Forall (fun e => evt_type e = "source.switch") tail)
    /\ events s' = events s ++ [HotspotClick "shown" (Some "c")].
Proof.
  do 2 eexists. split; [vm_compute; reflexivity |].
  split; [vm_compute; reflexivity |].
  split; [| reflexivity].
  eapply (keys_activate_rendered_hotspots hiddenHotspot _ _ "1").
  vm_compute. reflexivity.
Defined.

(** X9. While no hotspot is rendered (outside every segment, after a
    choice has hidden the overlays, or in a segment without a visible
    hotspot) key presses, however many, leave the state exactly as it is:
    by the keyboard one activation cannot fire twice. *)
Theorem keys_are_ignored_without_overlay (p : Props) (s : State)
    (inputs : list Input) :
  renderedHotspots p s = [] ->
  Forall (fun i => isKeyInput i = true) inputs ->
  run p s inputs = Ok s.
Proof.
  intros Hr Hi. induction Hi as [| i rest Hc _ IH]; cbn [run]; [reflexivity |].
  assert (S1 : step p s i = Ok s).
  { unfold step.
    assert (handle p i s = Ok s) as ->.
    { destruct i; try discriminate; cbn [handle].
      destruct (keyIndex key) as [idx |]; [| reflexivity].
      rewrite choose_rendered, Hr; now destruct idx. }
    cbn [bind]. rewrite commit_one_round. apply runEffects_same. }
  rewrite S1. exact IH.
Qed.

Lemma keys_are_ignored_without_overlay_witness :
  exists s,
    run hiddenHotspot (mounted hiddenHotspot) [mediaAt 11; TimeUpdate; KeyDown "1"] = Ok s
    /\ userChoseInSegment s = true
    /\ run hiddenHotspot s [KeyDown "1"; KeyDown "2"; KeyDown "1"] = Ok s.
Proof.
  eexists. split; [vm_compute; reflexivity |]. split; [reflexivity |].
  apply keys_are_ignored_without_overlay; [reflexivity | repeat constructor].
Defined.

(** X20. The handler of a button has no test of its own: a click on a
    button that is still in the document while its overlay fades out
    activates its hotspot whatever the state is, also after a choice has
    hidden the overlays. The choice is recorded, the overlays are hidden,
    [hotspot.click] is emitted once more with the ids of the hotspot and
    of the segment of the button, and the action of the hotspot is
    dispatched again (at most [source.switch] follows in the log). *)
Theorem click_has_no_guard (p : Props) (s s' : State) (h : Hotspot) (seg : Segment) :
  step p s (ClickFading h seg) = Ok s' ->
  userChoseInSegment s' = true
  /\ showOverlays s' = false
  /\ (exists tail,
         events s' = events s ++ HotspotClick (hs_id h) (Some (seg_id seg)) :: tail
         /\ Forall (fun e => evt_type e = "source.switch") tail)
  /\ exists s1,
       performAction (hs_action h)
         (onEvent (HotspotClick (hs_id h) (Some (seg_id seg)))
            (setShowOverlays false (setUserChoseInSegment true s))) = Ok s1
       /\ runEffects p s (setActiveHotspot (Some h) s1) = Ok s'.
Proof.
  intros H. unfold step in H. cbn [handle] in H.
  destruct (onHotspotClick h (Some seg) s) as [s1 |] eqn:C; [| discriminate].
  cbn [bind] in H. rewrite commit_one_round in H.
  destruct (activation_step p s s1 s' h seg C H) as (Hu & Hs & He).
  split; [exact Hu |]. split; [exact Hs |]. split; [exact He |].
  unfold onHotspotClick in C. cbn [option_map] in C.
  destruct (performAction _ _) as [s4 |]; [| discriminate].
  cbn [bind] in C. injection C as <-. exists s4. auto.
Qed.

Lemma click_has_no_guard_witness :
  exists s s',
    run hiddenHotspot (mounted hiddenHotspot) [mediaAt 11; TimeUpdate; Click 0] = Ok s
    /\ showOverlays s = false
    /\ step hiddenHotspot s
         (ClickFading (mkHotspot "shown" None None (Some (seekStart 30 None)) None)
            (mkSegment "c" 10 13 true true None None
               [ mkHotspot "hidden" None (Some false) (Some (seekStart 50 None)) None;
                 mkHotspot "shown" None None (Some (seekStart 30 None)) None ])) = Ok s'
    /\ userChoseInSegment s' = true
    /\ events s' = events s ++ [HotspotClick "shown" (Some "c")].
Proof.
  do 2 eexists. split; [vm_compute; reflexivity |]. split; [reflexivity |].
  match goal with
  | |- step ?p ?s ?i = Ok ?s' /\ _ =>
      assert (H : step p s i = Ok s') by (vm_compute; reflexivity);
      split; [exact H |];
      destruct (click_has_no_guard _ _ _ _ _ H) as (Hu & _)
  end.
  split; [exact Hu | vm_compute; reflexivity].
Defined.

(** X10. Only a time update moves the clock of the state, the tracker and
    the loop counters: every other input leaves [currentTime],
    [activeSegmentId] and [loopCountBySeg] as they are, and an input that
    is neither a time update nor a click or key also leaves the choice
    flag, the overlay flag and the event log as they are. *)
Theorem only_time_updates_move_the_tracker (p : Props) (s s' : State) (i : Input) :
  i <> TimeUpdate ->
  step p s i = Ok s' ->
  currentTime s' = currentTime s
  /\ activeSegmentId s' = activeSegmentId s
  /\ loopCountBySeg s' = loopCountBySeg s
  /\ (isChoiceInput i = false ->
      userChoseInSegment s' = userChoseInSegment s
      /\ showOverlays s' = showOverlays s
      /\ events s' = events s).
Proof.
  intros Hi H. unfold step in H.
  destruct (handle p i s) as [s1 |] eqn:Hh; [| discriminate]. cbn [bind] in H.
  rewrite commit_one_round in H.
  apply handle_frame in Hh as (Ha & Hl & Ht & Hrest). specialize (Ht Hi).
  apply runEffects_same_time in H as (Ht' & Ha' & Hl' & Hu' & Ho' & He'); [| exact Ht].
  split; [congruence |]. split; [congruence |]. split; [congruence |].
  intros Hn. destruct (Hrest Hn) as (_ & ? & ? & ?). repeat split; congruence.
Qed.

Lemma only_time_updates_move_the_tracker_witness :
  exists s',
    step App inChoice1 (mediaAt 13.5) = Ok s'
    /\ currentTime s' = currentTime inChoice1
    /\ activeSegmentId s' = Some "choice-1"
    /\ events s' = events inChoice1.
Proof.
  eexists. split; [vm_compute; reflexivity |].
  match goal with
  | |- currentTime ?s' = _ /\ _ =>
      destruct (only_time_updates_move_the_tracker App inChoice1 s' (mediaAt 13.5))
        as (Ht & Ha & _ & Hrest); [discriminate | vm_compute; reflexivity |]
  end.
  split; [exact Ht |]. split; [exact Ha |].
  now destruct Hrest as (_ & _ & He).
Defined.

(** ** Leaving, entering and staying in a segment *)

(** The tick on which a tracked segment is left for no segment, when no
    chained follow-up is due. *)
Lemma exit_tick (p : Props) (s : State) (v : Video) (sid : string) (t : Q) :
  videoRef s = Some v ->
  activeSegmentId s = Some sid ->
  sid <> "" ->
  activeSegment (config p) t = None ->
  ~ (currentTime s == t)%Q ->
  chainedEffect (atTime t v s) (atTime t v s) = Ok (atTime t v s) ->
  tick p t s =
  (do s1 <- exitPolicy p (atTime t v s) sid (atTime t v s); Ok (idle s1)).
Proof.
  intros V Hid Hne Hout Hnew Hchain.
  rewrite (tick_unfold p t s v V).
  rewrite (proj2 (timeChanged_iff s (atTime t v s)) Hnew).
  rewrite Hchain. cbn [bind].
  unfold segmentEffect. cbn [currentTime atTime setCurrentTime]. rewrite Hout.
  cbn [activeSegmentId atTime setCurrentTime set_videoRef].
  now rewrite Hid, (truthyS_nonempty _ Hne).
Qed.

(** X11. Leaving a segment goes on without looping when a choice was made
    in it, or when the segment that its id finds lacks [requireChoice] or
    [loopOnNoChoice] (or when no configured segment has the id): the tick
    only moves the clock and makes the tracker idle with the overlays
    hidden; no counter changes, no event is emitted and the position is
    not touched. *)
Theorem exit_without_loop (p : Props) (s : State) (v : Video) (sid : string) (t : Q) :
  videoRef s = Some v ->
  activeSegmentId s = Some sid ->
  sid <> "" ->
  activeSegment (config p) t = None ->
  ~ (currentTime s == t)%Q ->
  chainedEffect (atTime t v s) (atTime t v s) = Ok (atTime t v s) ->
  userChoseInSegment s = true
  \/ (forall seg,
         List.find (fun x => String.eqb (seg_id x) sid) (segments (config p)) = Some seg ->
         seg_requireChoice seg && seg_loopOnNoChoice seg = false) ->
  tick p t s = Ok (idle (atTime t v s))
  /\ loopCountBySeg (idle (atTime t v s)) = loopCountBySeg s
  /\ events (idle (atTime t v s)) = events s
  /\ option_map v_currentTime (videoRef (idle (atTime t v s))) = Some t
  /\ activeSegmentId (idle (atTime t v s)) = None
  /\ showOverlays (idle (atTime t v s)) = false.
Proof.
  intros V Hid Hne Hout Hnew Hchain Hwhy.
  split; [| repeat split].
  rewrite (exit_tick p s v sid t V Hid Hne Hout Hnew Hchain).
  unfold exitPolicy.
  destruct (List.find _ _) as [seg |] eqn:F; [| reflexivity].
  cbn [userChoseInSegment atTime setCurrentTime set_videoRef].
  destruct Hwhy as [Hc | Hf].
  - rewrite Hc. cbn [negb]. now rewrite andb_false_r.
  - now rewrite (Hf seg eq_refl).
Qed.

Lemma exit_without_loop_witness :
  exists s,
    run App (mounted App) [mediaAt 11; TimeUpdate; Click 1] = Ok s
    /\ userChoseInSegment s = true
    /\ tick App 46.2 s
       = Ok (idle (atTime 46.2 (mkVideo 46 None false false) s))
    /\ events (idle (atTime 46.2 (mkVideo 46 None false false) s)) = events s.
Proof.
  eexists. split; [vm_compute; reflexivity |]. split; [reflexivity |].
  match goal with
  | |- tick _ _ ?s = _ /\ _ =>
      destruct (exit_without_loop App s (mkVideo 46 None false false) "choice-1" 46.2%Q)
        as (E & _ & He & _);
        [reflexivity | reflexivity | discriminate | reflexivity
        | intros H; vm_compute in H; discriminate | reflexivity
        | left; reflexivity |]
  end.
  split; [exact E | exact He].
Defined.

(** X12. [S] asks for a choice and loops, its id is not empty and finds
    [S] among the segments, the player tracks [S] without a choice, and a
    tick reports a new time in no segment, no chained follow-up being due
    at that tick. When [S] has no [maxLoops] or no [defaultAction], or
    when its counter is not a number (the id of [S] is the name of a
    member that the counter object inherits, so that [+ 1] appends to a
    string), the segment loops for ever: the exit counts one more loop by
    [+ 1] on what the counter object returns, emits [segment.loop] with
    that value and nothing else, and sets the position by
    [seekTo(S.start)]; the default action is never dispatched, and the
    counter is not a number afterwards if it was not one before. *)
Theorem loops_without_bound (p : Props) (s : State) (v : Video) (S : Segment) (t : Q) :
  videoRef s = Some v ->
  List.find (fun x => String.eqb (seg_id x) (seg_id S)) (segments (config p)) = Some S ->
  seg_id S <> "" ->
  seg_requireChoice S = true ->
  seg_loopOnNoChoice S = true ->
  seg_maxLoops S = None \/ seg_defaultAction S = None
  \/ (forall n, loopCount (loopCountBySeg s) (seg_id S) <> Num n) ->
  activeSegmentId s = Some (seg_id S) ->
  userChoseInSegment s = false ->
  activeSegment (config p) t = None ->
  ~ (currentTime s == t)%Q ->
  chainedEffect (atTime t v s) (atTime t v s) = Ok (atTime t v s) ->
  exists s' v',
    tick p t s = Ok s'
    /\ loopCount (loopCountBySeg s') (seg_id S)
       = plusOne (loopCount (loopCountBySeg s) (seg_id S))
    /\ events s'
       = events s
         ++ [SegmentLoop (seg_id S) (plusOne (loopCount (loopCountBySeg s) (seg_id S)))]
    /\ videoRef s' = Some v'
    /\ v_currentTime v' = seekTarget v (seg_start S)
    /\ activeSegmentId s' = None
    /\ ((forall n, loopCount (loopCountBySeg s) (seg_id S) <> Num n) ->
        forall n, loopCount (loopCountBySeg s') (seg_id S) <> Num n).
Proof.
  intros V Hfind Hne Hreq Hloop Hno Hid Hchose Hout Hnew Hchain.
  rewrite (exit_tick p s v (seg_id S) t V Hid Hne Hout Hnew Hchain).
  unfold exitPolicy. rewrite Hfind, Hreq, Hloop.
  cbn [userChoseInSegment atTime setCurrentTime set_videoRef loopCountBySeg].
  rewrite Hchose. cbn [negb andb].
  assert (reachedMax S (plusOne (loopCount (loopCountBySeg s) (seg_id S)))
          && isSome (seg_defaultAction S) = false) as ->.
  { destruct Hno as [Hm | [Hd | Hn]].
    - unfold reachedMax. now rewrite Hm.
    - rewrite Hd. apply andb_false_r.
    - unfold reachedMax. destruct (seg_maxLoops S); [| reflexivity].
      destruct (loopCount (loopCountBySeg s) (seg_id S)) as [n | |];
        [now destruct (Hn n) | reflexivity | reflexivity]. }
  assert (Hcount : loopCount
            (<[seg_id S := plusOne (loopCount (loopCountBySeg s) (seg_id S))]>
               (loopCountBySeg s)) (seg_id S)
          = plusOne (loopCount (loopCountBySeg s) (seg_id S))).
  { rewrite loopCount_insert. now case_decide. }
  do 2 eexists. split; [reflexivity |].
  split; [exact Hcount |].
  split; [reflexivity |]. split; [reflexivity |].
  split; [cbn [v_currentTime]; now rewrite v_currentTime_play |].
  split; [reflexivity |].
  intros Hn n. cbn. rewrite Hcount.
  destruct (loopCount (loopCountBySeg s) (seg_id S)) as [k | |];
    [now destruct (Hn k) | discriminate | discriminate].
Qed.

Lemma loops_without_bound_witness :
  exists s' v',
    tick scenarioInherited 13.2 inInherited = Ok s'
    /\ loopCount (loopCountBySeg inInherited) "constructor" = Inherited "constructor"
    /\ loopCount (loopCountBySeg s') "constructor" = Str "constructor" 1
    /\ events s' = events inInherited ++ [SegmentLoop "constructor" (Str "constructor" 1)]
    /\ videoRef s' = Some v'
    /\ v_currentTime v' = seekTarget (mkVideo 11 None true false) 10.
Proof.
  destruct (loops_without_bound scenarioInherited inInherited
              (mkVideo 11 None true false) inherited 13.2%Q)
    as (s' & v' & E & Hc & He & Hv & Hp & _);
    [reflexivity | reflexivity | discriminate | reflexivity | reflexivity
    | right; right; intros n H; vm_compute in H; discriminate
    | reflexivity | reflexivity | reflexivity
    | intros H; vm_compute in H; discriminate | reflexivity |].
  exists s', v'.
  split; [exact E |]. split; [reflexivity |]. split; [exact Hc |].
  split; [exact He |]. split; [exact Hv | exact Hp].
Defined.

(** X13. While the resolver keeps returning a segment with the tracked id,
    a tick changes nothing of the choice state: the choice flag, the
    overlay flag, the tracked id, the counters and the event log stay as
    they are (a choice that was made stays made until the segment is
    left). *)
Theorem tick_inside_tracked_segment (p : Props) (s s' : State) (S : Segment) (t : Q) :
  activeSegmentId s = Some (seg_id S) ->
  activeSegment (config p) t = Some S ->
  tick p t s = Ok s' ->
  userChoseInSegment s' = userChoseInSegment s
  /\ showOverlays s' = showOverlays s
  /\ activeSegmentId s' = Some (seg_id S)
  /\ loopCountBySeg s' = loopCountBySeg s
  /\ events s' = events s.
Proof.
  intros Hid Hin H.
  destruct (videoRef s) as [v |] eqn:V;
    [| rewrite (tick_unmounted p t s V) in H; injection H as <-; auto].
  rewrite (tick_unfold p t s v V) in H.
  destruct (timeChanged _ _); [| injection H as <-; auto].
  destruct (chainedEffect _ _) as [s1 |] eqn:C; [| discriminate]. cbn [bind] in H.
  apply chainedEffect_frame in C as (_ & Ha & Hl & Hu & Ho & He & _).
  unfold segmentEffect in H. cbn [currentTime atTime setCurrentTime] in H.
  rewrite Hin in H. cbn [activeSegmentId atTime setCurrentTime set_videoRef] in H.
  rewrite Hid in H. cbn [differsFrom] in H. rewrite String.eqb_refl in H.
  cbn [negb] in H. injection H as <-.
  cbn in Ha, Hl, Hu, Ho, He. repeat split; congruence.
Qed.

Lemma tick_inside_tracked_segment_witness :
  exists s',
    tick App 12.5 inChoice1 = Ok s'
    /\ showOverlays s' = showOverlays inChoice1
    /\ events s' = events inChoice1.
Proof.
  eexists. split; [vm_compute; reflexivity |].
  match goal with
  | |- showOverlays ?s' = _ /\ _ =>
      destruct (tick_inside_tracked_segment App inChoice1 s'
                  (mkSegment "choice-1" 10 13 true true None (Some (seekToShape 14))
                     [ mkHotspot "toA" (Some "Go to Scene A") None
                         (Some (seekStart 14 (Some 16%Q))) (Some 67%Q);
                       mkHotspot "toB" (Some "Go to Scene B") None
                         (Some (seekStart 46 None)) (Some 67%Q) ]) 12.5%Q)
        as (_ & Ho & _ & _ & He);
        [reflexivity | reflexivity | vm_compute; reflexivity |]
  end.
  split; assumption.
Defined.

(** X14. A tick on which the resolver returns a segment other than the
    tracked one (from no segment or from another segment) enters it: the
    tracker takes its id, the choice flag is cleared, the overlays are
    shown, and [segment.enter] is the one event; the counters are not
    touched. *)
Theorem tick_enters_segment (p : Props) (s s' : State) (v : Video) (S : Segment)
    (t : Q) :
  videoRef s = Some v ->
  differsFrom (activeSegmentId s) (seg_id S) = true ->
  activeSegment (config p) t = Some S ->
  ~ (currentTime s == t)%Q ->
  tick p t s = Ok s' ->
  activeSegmentId s' = Some (seg_id S)
  /\ userChoseInSegment s' = false
  /\ showOverlays s' = true
  /\ events s' = events s ++ [SegmentEnter (seg_id S)]
  /\ loopCountBySeg s' = loopCountBySeg s
  /\ currentTime s' = t.
Proof.
  intros V Hd Hin Hnew H.
  rewrite (tick_unfold p t s v V) in H.
  rewrite (proj2 (timeChanged_iff s (atTime t v s)) Hnew) in H.
  destruct (chainedEffect _ _) as [s1 |] eqn:C; [| discriminate]. cbn [bind] in H.
  apply chainedEffect_frame in C as (Ht & _ & Hl & _ & _ & He & _).
  unfold segmentEffect in H. cbn [currentTime atTime setCurrentTime] in H.
  rewrite Hin in H. cbn [activeSegmentId atTime setCurrentTime set_videoRef] in H.
  rewrite Hd in H. injection H as <-.
  cbn in Ht, Hl, He |- *. rewrite He, Hl, Ht. repeat split.
Qed.

Lemma tick_enters_segment_witness :
  exists s',
    tick App 10.2 (mounted App) = Ok s'
    /\ activeSegmentId s' = Some "choice-1"
    /\ showOverlays s' = true
    /\ events s' = events (mounted App) ++ [SegmentEnter "choice-1"].
Proof.
  eexists. split; [vm_compute; reflexivity |].
  match goal with
  | |- activeSegmentId ?s' = _ /\ _ =>
      destruct (tick_enters_segment App (mounted App) s' freshVideo
                  (mkSegment "choice-1" 10 13 true true None (Some (seekToShape 14))
                     [ mkHotspot "toA" (Some "Go to Scene A") None
                         (Some (seekStart 14 (Some 16%Q))) (Some 67%Q);
                       mkHotspot "toB" (Some "Go to Scene B") None
                         (Some (seekStart 46 None)) (Some 67%Q) ]) 10.2%Q)
        as (Ha & _ & Ho & He & _);
        [reflexivity | reflexivity | reflexivity
        | intros H; vm_compute in H; discriminate | vm_compute; reflexivity |]
  end.
  repeat split; assumption.
Defined.

(** ** The chained watch on a tick; the deferred start of a switch *)

(** The state after the chained follow-up seek of the tick at [t]. *)
Lemma chained_tick (p : Props) (s : State) (v : Video) (t : Q) :
  videoRef s = Some v ->
  ~ (currentTime s == t)%Q ->
  tick p t s =
  (do s1 <- chainedEffect (atTime t v s) (atTime t v s);
   segmentEffect p (atTime t v s) s1).
Proof.
  intros V Hnew. rewrite (tick_unfold p t s v V).
  now rewrite (proj2 (timeChanged_iff s (atTime t v s)) Hnew).
Qed.

(** X15. With a hotspot pending, a tick at a new time [t] decides the
    chained watch by the [end] of the hotspot's action alone. Without a
    truthy [end] (absent, or [0]) the hotspot stays pending and never
    causes a seek. With an [end], the boundary is [end + 0.05] as the
    code computes it, in doubles: the hotspot stays pending while [t] is
    not above the boundary; on a tick with [t] above it the watch is
    cleared and [seekTo(onEnd)] sets the position before the segment
    effect of that tick runs, so that outside every segment the position
    after the tick is the clamped [onEnd]. *)
Theorem chained_watch_on_tick (p : Props) (s s' : State) (v : Video) (h : Hotspot)
    (t : Q) :
  videoRef s = Some v ->
  activeHotspot s = Some h ->
  ~ (currentTime s == t)%Q ->
  (truthyQ (hotspotEnd h) = None ->
   tick p t s = segmentEffect p (atTime t v s) (atTime t v s)
   /\ (tick p t s = Ok s' -> activeHotspot s' = Some h))
  /\ (forall e,
         truthyQ (hotspotEnd h) = Some e -> (t <= watchBoundary e)%Q ->
         tick p t s = segmentEffect p (atTime t v s) (atTime t v s)
         /\ (tick p t s = Ok s' -> activeHotspot s' = Some h))
  /\ (forall e target,
         truthyQ (hotspotEnd h) = Some e -> (watchBoundary e < t)%Q ->
         hs_onEnd h = Some target ->
         let fired :=
           set_videoRef
             (Some (play (set_v_currentTime (seekTarget v target) (set_v_currentTime t v))))
             (setActiveHotspot None (atTime t v s)) in
         tick p t s = segmentEffect p (atTime t v s) fired
         /\ (tick p t s = Ok s' -> activeHotspot s' = None)
         /\ (truthyS (activeSegmentId s) = None ->
             activeSegment (config p) t = None ->
             tick p t s = Ok fired)).
Proof.
  intros V Hh Hnew. rewrite (chained_tick p s v t V Hnew).
  assert (Hkeep : forall x,
             segmentEffect p (atTime t v s) x = Ok s' ->
             loopCountBySeg x = loopCountBySeg (atTime t v s) ->
             activeHotspot s' = activeHotspot x).
  { intros x H E. apply segmentEffect_frame in H; tauto. }
  split; [| split].
  - intros He. unfold chainedEffect at 1 2.
    cbn [activeHotspot atTime setCurrentTime set_videoRef]. rewrite Hh, He. cbn [bind].
    split; [reflexivity |]. intros H. rewrite (Hkeep _ H eq_refl). exact Hh.
  - intros e He Ht. unfold chainedEffect at 1 2.
    cbn [activeHotspot atTime setCurrentTime set_videoRef currentTime]. rewrite Hh, He.
    assert (Qgt_bool t (watchBoundary e) = false) as ->.
    { destruct (Qgt_bool t (watchBoundary e)) eqn:G; [| reflexivity].
      apply Qgt_bool_iff in G. lra. }
    cbn [bind]. split; [reflexivity |].
    intros H. rewrite (Hkeep _ H eq_refl). exact Hh.
  - intros e target He Ht Hend fired. unfold chainedEffect at 1 2 3.
    cbn [activeHotspot atTime setCurrentTime set_videoRef currentTime]. rewrite Hh, He.
    rewrite (proj2 (Qgt_bool_iff t (watchBoundary e)) Ht), Hend.
    unfold seekTo. cbn [videoRef setActiveHotspot setCurrentTime set_videoRef bind].
    change (seekTarget (set_v_currentTime t v) target) with (seekTarget v target).
    split; [reflexivity |]. split.
    + intros H. now rewrite (Hkeep _ H eq_refl).
    + intros Hidle Hout. unfold segmentEffect.
      cbn [currentTime atTime setCurrentTime set_videoRef]. rewrite Hout.
      cbn [activeSegmentId atTime setCurrentTime set_videoRef]. now rewrite Hidle.
Qed.

Lemma chained_watch_on_tick_witness :
  exists s s',
    run App (mounted App)
      [mediaAt 10; TimeUpdate; Click 0; mediaAt 14.1; TimeUpdate] = Ok s
    /\ tick App 16.3 s = Ok s'
    /\ activeHotspot s' = None
    /\ option_map v_currentTime (videoRef s')
       = Some (seekTarget (mkVideo 14.1 None true false) 67).
Proof.
  do 2 eexists. split; [vm_compute; reflexivity |].
  split; [vm_compute; reflexivity |].
  match goal with
  | |- activeHotspot ?s' = _ /\ option_map _ (videoRef ?s') = _ =>
      match type of s' with
      | _ =>
          destruct (chained_watch_on_tick App
                      (mkState (Some (mkVideo 14.1 None true false)) "main" false 14.1
                         None
                         (Some (mkHotspot "toA" (Some "Go to Scene A") None
                                  (Some (seekStart 14 (Some 16%Q))) (Some 67%Q)))
                         ∅ true false [] [SegmentEnter "choice-1";
                                          HotspotClick "toA" (Some "choice-1")])
                      s' (mkVideo 14.1 None true false)
                      (mkHotspot "toA" (Some "Go to Scene A") None
                         (Some (seekStart 14 (Some 16%Q))) (Some 67%Q)) 16.3%Q)
            as (_ & _ & Hfire);
            [reflexivity | reflexivity | intros H; vm_compute in H; discriminate |]
      end
  end.
  destruct (Hfire 16%Q 67%Q) as (_ & Hclear & _);
    [reflexivity | vm_compute; reflexivity | reflexivity |].
  split; [apply Hclear; vm_compute; reflexivity | reflexivity].
Defined.

Lemma runEffects_unchanged_deps (p : Props) (prev r : State) :
  currentTime r = currentTime prev ->
  activeHotspot r = activeHotspot prev ->
  runEffects p prev r = Ok r.
Proof.
  intros Ht Hh. unfold runEffects, timeChanged, hotspotChanged.
  rewrite Ht, Hh, Qeq_bool_refl, bool_decide_eq_true_2 by reflexivity. reflexivity.
Qed.

(** X16. A switch of source does not move the position when it is
    dispatched; the start position is applied by the callback that it
    hands to [setTimeout]. On a mounted player without pending callbacks,
    dispatching the switch leaves the media element as it is, and the
    timeout that follows sets the position to [startAt] ([0] when absent),
    as given and without any clamp, resumes playback, and emits nothing;
    a further timeout has nothing left to run and changes nothing. *)
Theorem switch_starts_at_timeout (p : Props) (s : State) (v : Video)
    (to start e : option Q) (sid : string) (startAt : option Q) :
  videoRef s = Some v ->
  timers s = [] ->
  sid <> "" ->
  exists s1 s2,
    performAction (Some (mkAction "switchSource" to start e (Some sid) startAt)) s = Ok s1
    /\ videoRef s1 = Some v
    /\ step p s1 Timeout = Ok s2
    /\ videoRef s2 = Some (play (set_v_currentTime (default 0%Q startAt) v))
    /\ timers s2 = []
    /\ currentSourceId s2 = sid
    /\ events s2 = events s1
    /\ step p s2 Timeout = Ok s2.
Proof.
  intros V Ht Hne.
  exists (switchSource sid (default 0%Q startAt) s).
  eexists.
  split.
  { unfold performAction. cbn [act_type act_start act_sourceId act_startAt].
    change (String.eqb "switchSource" "seek") with false. cbn [andb].
    change (String.eqb "switchSource" "switchSource") with true.
    now rewrite (truthyS_nonempty _ Hne). }
  split; [exact V |].
  split.
  { unfold step. cbn [handle timers switchSource onEvent set_timers]. rewrite Ht.
    cbn [app bind]. unfold switchSourceTimeout.
    cbn [videoRef set_timers].
    change (videoRef (switchSource sid (default 0%Q startAt) s)) with (videoRef s).
    rewrite V. rewrite commit_one_round. apply runEffects_unchanged_deps; reflexivity. }
  split; [reflexivity |]. split; [reflexivity |]. split; [reflexivity |].
  split; [reflexivity |].
  unfold step. cbn [handle timers set_videoRef bind].
  rewrite commit_one_round. apply runEffects_same.
Qed.

Lemma switch_starts_at_timeout_witness :
  exists s1 s2,
    performAction (Some (mkAction "switchSource" None None None (Some "altA") (Some 5%Q)))
      (mounted twoSources) = Ok s1
    /\ videoRef s1 = Some freshVideo
    /\ step twoSources s1 Timeout = Ok s2
    /\ videoRef s2 = Some (play (set_v_currentTime 5 freshVideo))
    /\ timers s2 = [].
Proof.
  destruct (switch_starts_at_timeout twoSources (mounted twoSources) freshVideo
              None None None "altA" (Some 5%Q))
    as (s1 & s2 & E1 & V1 & E2 & V2 & T2 & _);
    [reflexivity | reflexivity | discriminate |].
  exists s1, s2. repeat split; assumption.
Defined.

(** ** A segment with an empty id *)

(** X17. A segment whose id is the empty string is never left: the test
    [if (activeSegmentId)] takes the tracked id [""] for no segment. Once
    the tracker holds the empty id, ticks outside every segment, however
    many, keep it; the exit policy never runs (no counter changes, no
    event is emitted), and the tracker never returns to [null]. *)
Theorem empty_id_is_never_left (p : Props) (ts : list Q) (s s' : State) :
  activeSegmentId s = Some "" ->
  Forall (fun t => activeSegment (config p) t = None) ts ->
  ticks p ts s = Ok s' ->
  activeSegmentId s' = Some ""
  /\ loopCountBySeg s' = loopCountBySeg s
  /\ events s' = events s.
Proof.
  intros Hid Hts H.
  apply idle_ticks in H as (Hl & He & Ha); [| now rewrite Hid | exact Hts].
  repeat split; congruence.
Qed.

Lemma empty_id_is_never_left_witness :
  exists s s',
    run emptyId (mounted emptyId) [mediaAt 11; TimeUpdate] = Ok s
    /\ activeSegmentId s = Some ""
    /\ ticks emptyId [13.5; 14; 20]%Q s = Ok s'
    /\ activeSegmentId s' = Some ""
    /\ loopCountBySeg s' = loopCountBySeg s
    /\ events s' = events s.
Proof.
  do 2 eexists. split; [vm_compute; reflexivity |]. split; [reflexivity |].
  split; [vm_compute; reflexivity |].
  eapply (empty_id_is_never_left emptyId [13.5; 14; 20]%Q);
    [reflexivity | repeat constructor | vm_compute; reflexivity].
Defined.

(** ** Source switches and the chained watch *)

Lemma chainedEffect_currentSourceId (r s s' : State) :
  chainedEffect r s = Ok s' -> currentSourceId s' = currentSourceId s.
Proof.
  unfold chainedEffect. intros H.
  destruct (activeHotspot r) as [h |]; [| now injection H as <-].
  destruct (truthyQ (hotspotEnd h)); [| now injection H as <-].
  destruct (Qgt_bool _ _); [| now injection H as <-].
  apply seekTo_frame in H. rewrite H. reflexivity.
Qed.

(** The effects leave a pending hotspot alone while the time of the render
    is not past its boundary. *)
Lemma runEffects_keeps_watch (p : Props) (prev r s' : State) (h : Hotspot) (e : Q) :
  activeHotspot r = Some h ->
  truthyQ (hotspotEnd h) = Some e ->
  (currentTime r <= watchBoundary e)%Q ->
  runEffects p prev r = Ok s' ->
  activeHotspot s' = Some h.
Proof.
  intros Hh He Ht H. unfold runEffects in H.
  assert (W : chainedEffect r r = Ok r).
  { apply truthyQ_Some in He as [He _]. exact (chainedEffect_waits r r h e Hh He Ht). }
  assert (E : (if timeChanged prev r || hotspotChanged prev r
               then chainedEffect r r else Ok r) = Ok r)
    by (destruct (_ || _); [exact W | reflexivity]).
  rewrite E in H. cbn [bind] in H.
  destruct (timeChanged prev r); [| now injection H as <-].
  apply segmentEffect_frame in H as (_ & Ha & _); [congruence | reflexivity].
Qed.

(** A tick on which the watch of [h] is due. *)
Lemma tick_fires (p : Props) (s : State) (v : Video) (h : Hotspot) (e target t : Q) :
  videoRef s = Some v ->
  activeHotspot s = Some h ->
  truthyQ (hotspotEnd h) = Some e ->
  hs_onEnd h = Some target ->
  ~ (currentTime s == t)%Q ->
  (watchBoundary e < t)%Q ->
  tick p t s
  = segmentEffect p (atTime t v s)
      (set_videoRef
         (Some (play (set_v_currentTime (seekTarget v target) (set_v_currentTime t v))))
         (setActiveHotspot None (atTime t v s))).
Proof.
  intros V Hh He Hend Hnew Ht.
  rewrite (tick_unfold p t s v V).
  rewrite (proj2 (timeChanged_iff s (atTime t v s)) Hnew).
  unfold chainedEffect.
  cbn [activeHotspot atTime setCurrentTime set_videoRef currentTime]. rewrite Hh, He.
  rewrite (proj2 (Qgt_bool_iff t (watchBoundary e)) Ht), Hend.
  unfold seekTo. cbn [videoRef setActiveHotspot setCurrentTime set_videoRef bind].
  reflexivity.
Qed.

(** C7, as the code has it. No code clears the chained watch when the
    source is switched; what becomes of a pending watch depends on who
    dispatches the switch.

    - An activation of a hotspot [h'] whose action switches the source
      sets [activeHotspot] to [h'] after the switch: the source is the new
      one and the pending hotspot is [h'] and no other (or none, when the
      watch of [h'] itself is due in the render of the activation), so the
      hotspot that was pending before is replaced.
    - The default action of a segment [S], dispatched on an exit without a
      choice at a time that is not past the boundary of the pending
      hotspot [h], switches the source and leaves [h] pending.
    - From any state, a pending hotspot stays pending over every input
      that is not an activation, whatever the source is, as long as the
      time of the state is not past the boundary: [end + 0.05], as
      computed in doubles.
    - From any state, whatever the source is, the first tick whose time
      is past the boundary clears the watch and sets the position by
      [seekTo(onEnd)] before the segment effect of that tick runs; the
      source stays as it is. *)
Theorem switch_does_not_cancel_watch (p : Props) :
  (forall (s s' : State) (i : Input) (h' : Hotspot) (seg : Segment) (a : Action)
          (sid : string),
      handle p i s = onHotspotClick h' (Some seg) s ->
      hs_action h' = Some a ->
      act_type a = "switchSource" ->
      act_sourceId a = Some sid ->
      sid <> "" ->
      step p s i = Ok s' ->
      currentSourceId s' = sid
      /\ (activeHotspot s' = Some h' \/ activeHotspot s' = None)
      /\ (truthyQ (hotspotEnd h') = None -> activeHotspot s' = Some h'))
  /\ (forall (s : State) (v : Video) (S : Segment) (m c : Z) (a : Action)
             (sid : string) (h : Hotspot) (e t : Q),
         videoRef s = Some v ->
         List.find (fun x => String.eqb (seg_id x) (seg_id S)) (segments (config p))
         = Some S ->
         seg_id S <> "" ->
         seg_requireChoice S = true ->
         seg_loopOnNoChoice S = true ->
         seg_maxLoops S = Some m ->
         seg_defaultAction S = Some a ->
         act_type a = "switchSource" ->
         act_sourceId a = Some sid ->
         sid <> "" ->
         activeSegmentId s = Some (seg_id S) ->
         userChoseInSegment s = false ->
         loopCount (loopCountBySeg s) (seg_id S) = Num c ->
         (m <= c + 1)%Z ->
         activeHotspot s = Some h ->
         truthyQ (hotspotEnd h) = Some e ->
         (t <= watchBoundary e)%Q ->
         activeSegment (config p) t = None ->
         ~ (currentTime s == t)%Q ->
         exists s',
           tick p t s = Ok s'
           /\ currentSourceId s' = sid
           /\ activeHotspot s' = Some h
           /\ timers s' = timers s ++ [default 0%Q (act_startAt a)]
           /\ events s'
              = events s
                ++ [ SegmentLoop (seg_id S) (Num (c + 1));
                     SourceSwitch sid (default 0%Q (act_startAt a));
                     SegmentAutoselect (seg_id S) ])
  /\ (forall (s s' : State) (i : Input) (h : Hotspot) (e : Q),
         activeHotspot s = Some h ->
         truthyQ (hotspotEnd h) = Some e ->
         isChoiceInput i = false ->
         step p s i = Ok s' ->
         (currentTime s' <= watchBoundary e)%Q ->
         activeHotspot s' = Some h)
  /\ (forall (s : State) (v : Video) (h : Hotspot) (e target t : Q),
         videoRef s = Some v ->
         activeHotspot s = Some h ->
         truthyQ (hotspotEnd h) = Some e ->
         hs_onEnd h = Some target ->
         ~ (currentTime s == t)%Q ->
         (watchBoundary e < t)%Q ->
         let fired :=
           set_videoRef
             (Some (play (set_v_currentTime (seekTarget v target) (set_v_currentTime t v))))
             (setActiveHotspot None (atTime t v s)) in
         tick p t s = segmentEffect p (atTime t v s) fired
         /\ activeHotspot fired = None
         /\ currentSourceId fired = currentSourceId s
         /\ option_map v_currentTime (videoRef fired) = Some (seekTarget v target)
         /\ (forall s', tick p t s = Ok s' -> activeHotspot s' = None)).
Proof.
  split; [| split; [| split]].
  - intros s s' i h' seg a sid Hi Ha Hty Hsid Hne H.
    unfold step in H. rewrite Hi in H.
    destruct (onHotspotClick h' (Some seg) s) as [s1 |] eqn:C; [| discriminate].
    cbn [bind] in H. rewrite commit_one_round in H.
    pose proof (onHotspotClick_frame _ _ _ _ C) as (Ht & _ & _ & _ & _ & Hh).
    assert (Hs : currentSourceId s1 = sid).
    { unfold onHotspotClick, performAction in C. rewrite Ha, Hty, Hsid in C.
      rewrite (truthyS_nonempty _ Hne) in C. cbn in C. now injection C as <-. }
    unfold runEffects in H.
    assert (T : timeChanged s s1 = false).
    { unfold timeChanged. rewrite Ht, Qeq_bool_refl. reflexivity. }
    rewrite T in H. cbn [orb] in H.
    destruct (hotspotChanged s s1).
    + destruct (chainedEffect s1 s1) as [s2 |] eqn:E; [| discriminate].
      cbn [bind] in H. injection H as <-.
      split; [rewrite (chainedEffect_currentSourceId _ _ _ E); exact Hs |].
      split.
      * apply chainedEffect_frame in E as (_ & _ & _ & _ & _ & _ & [E | E]);
          [left; congruence | right; exact E].
      * intros Hn. unfold chainedEffect in E. rewrite Hh, Hn in E.
        injection E as <-. exact Hh.
    + cbn [bind] in H. injection H as <-. auto.
  - intros s v S m c a sid h e t V Hfind Hne Hreq Hloop Hmax Hdef Hty Hsid Hsne
      Hid Hchose Hc Hm Hh He Ht Hout Hnew.
    assert (W : chainedEffect (atTime t v s) (atTime t v s) = Ok (atTime t v s)).
    { apply truthyQ_Some in He as [He _].
      exact (chainedEffect_waits (atTime t v s) (atTime t v s) h e Hh He Ht). }
    rewrite (exit_tick_unfold p s v S m c a t V Hfind Hne Hreq Hloop Hmax Hdef
               Hid Hchose Hc Hout Hnew W).
    rewrite (proj2 (Z.leb_le _ _) Hm).
    unfold performAction. rewrite Hty, Hsid, (truthyS_nonempty _ Hsne).
    cbn [String.eqb Ascii.eqb Bool.eqb andb bind].
    eexists. split; [reflexivity |].
    split; [reflexivity |]. split; [exact Hh |]. split; [reflexivity |].
    cbn. now rewrite <- !app_assoc.
  - intros s s' i h e Hh He Hi H Ht.
    unfold step in H.
    destruct (handle p i s) as [s1 |] eqn:E; [| discriminate].
    cbn [bind] in H. rewrite commit_one_round in H.
    apply handle_frame in E as (_ & _ & _ & Hk).
    destruct (Hk Hi) as (Hh1 & _).
    pose proof (runEffects_frame _ _ _ _ H) as (Hts & _).
    eapply runEffects_keeps_watch; [| exact He | | exact H].
    + congruence.
    + now rewrite <- Hts.
  - intros s v h e target t V Hh He Hend Hnew Ht fired.
    rewrite (tick_fires p s v h e target t V Hh He Hend Hnew Ht). fold fired.
    split; [reflexivity |]. split; [reflexivity |]. split; [reflexivity |].
    split; [subst fired; cbn [videoRef set_videoRef option_map v_currentTime];
            now rewrite v_currentTime_play |].
    intros s' H. apply segmentEffect_frame in H as (_ & Ha & _); [| reflexivity].
    rewrite Ha. reflexivity.
Qed.

Lemma switch_does_not_cancel_watch_witness :
  exists s0 s1 s2 s3 s4,
    run twoSourcesChoice (mounted twoSourcesChoice)
      [mediaAt 11; TimeUpdate; Click 0; mediaAt 14.5; TimeUpdate; mediaAt 21; TimeUpdate]
    = Ok s0
    /\ activeHotspot s0 = Some rangeHotspot
    /\ step twoSourcesChoice s0 (Click 0) = Ok s1
    /\ currentSourceId s1 = "altA"
    /\ activeHotspot s1 = Some switchHotspot
    /\ run twoSources (mounted twoSources)
         [mediaAt 11; TimeUpdate; Click 0; mediaAt 14.5; TimeUpdate; mediaAt 21; TimeUpdate]
       = Ok s2
    /\ activeHotspot s2 = Some rangeHotspot
    /\ tick twoSources 22.5 s2 = Ok s3
    /\ currentSourceId s3 = "altA"
    /\ activeHotspot s3 = Some rangeHotspot
    /\ step twoSources s3 Timeout = Ok s4
    /\ activeHotspot s4 = Some rangeHotspot
    /\ (forall s5, tick twoSources 30.1 s4 = Ok s5 -> activeHotspot s5 = None).
Proof.
  destruct (switch_does_not_cancel_watch twoSourcesChoice) as (Hclick & _).
  destruct (switch_does_not_cancel_watch twoSources) as (_ & Hdefault & Hkeep & Hfire).
  do 5 eexists.
  split; [vm_compute; reflexivity |]. split; [reflexivity |].
  match goal with
  | |- step ?p ?s ?i = Ok ?s' /\ _ =>
      assert (H1 : step p s i = Ok s') by (vm_compute; reflexivity);
      split; [exact H1 |];
      destruct (Hclick s s' i switchHotspot
                  (mkSegment "s2" 20 22 true true None None [switchHotspot])
                  (mkAction "switchSource" None None None (Some "altA") None) "altA")
        as (Hs1 & _ & Hh1);
        [vm_compute; reflexivity | reflexivity | reflexivity | reflexivity
        | discriminate | exact H1 |]
  end.
  split; [exact Hs1 |]. split; [apply Hh1; reflexivity |].
  split; [vm_compute; reflexivity |]. split; [reflexivity |].
  match goal with
  | |- tick _ _ ?s = Ok ?s' /\ _ =>
      destruct (Hdefault s (mkVideo 21 None true false)
                  (mkSegment "s2" 20 22 true true (Some 1%Z)
                     (Some (mkAction "switchSource" None None None (Some "altA") None)) [])
                  1%Z 0%Z (mkAction "switchSource" None None None (Some "altA") None)
                  "altA" rangeHotspot 30%Q 22.5%Q)
        as (s3 & E3 & Hs3 & Hh3 & _);
        [reflexivity | reflexivity | discriminate | reflexivity | reflexivity
        | reflexivity | reflexivity | reflexivity | reflexivity | discriminate
        | reflexivity | reflexivity | reflexivity | lia | reflexivity | reflexivity
        | vm_compute; discriminate | reflexivity
        | intros H; vm_compute in H; discriminate |]
  end.
  vm_compute in E3. injection E3 as <-.
  split; [vm_compute; reflexivity |].
  split; [exact Hs3 |]. split; [exact Hh3 |].
  match goal with
  | |- step ?p ?s ?i = Ok ?s' /\ _ =>
      assert (H4 : step p s i = Ok s') by (vm_compute; reflexivity);
      split; [exact H4 |];
      pose proof (Hkeep s s' i rangeHotspot 30%Q eq_refl eq_refl eq_refl H4) as Hh4
  end.
  split; [apply Hh4; vm_compute; discriminate |].
  match goal with
  | |- forall s5, tick _ _ ?s = _ -> _ =>
      destruct (Hfire s (mkVideo 0 None false false) rangeHotspot 30%Q 67%Q 30.1%Q)
        as (_ & _ & _ & _ & Hnone);
        [reflexivity | reflexivity | reflexivity | reflexivity
        | intros H; vm_compute in H; discriminate | vm_compute; reflexivity |]
  end.
  exact Hnone.
Defined.
